(** * Valuation of a concentrated-liquidity position

    A shallow embedding of [src/lp_value_calc.ts] (class [V3LpValue]).

    The program computes with two kinds of numbers, and the embedding keeps
    both as the source has them:

    - [Decimal] values of the decimal.js library in its default configuration
      (20 significant digits, rounding half away from zero), used by
      [getPositionAmounts] and [getTokenPriceFromPool];
    - JavaScript [number]s, that is IEEE 754 binary64 values, used by
      [calculateV3Liquidity], [calculatePositionValue] and
      [calculateLpValue].  They are Rocq's primitive floats.

    The algorithms that the specification describes over abstract numbers
    (the liquidity decomposition and liquidity-from-amounts) are written once
    over an arithmetic interface and instantiated at both kinds of numbers,
    and at exact rationals for the algebraic statements. *)

From Stdlib Require Import ZArith QArith Qpower Qcanon Floats Lia Bool List String Ascii.
From Stdlib Require Uint63.
Import ListNotations.

Local Open Scope Z_scope.

(** ** decimal.js values *)

Module Decimal.

(** [Decimal.precision]: the library default, never changed by the program. *)
Definition precision : Z := 20.

(** A value is finite, [(-1)^neg * c * 10^e] with [0 <= c], or one of the
    special values.  Finite values are kept normalised: [c] has no trailing
    zero digit, and zero is [Fin neg 0 0] (the library has a signed zero).
    The library's exponent limits (9e15 in magnitude) are far outside what
    uint8, int24, uint128 and uint160 inputs can reach and are left out. *)
Inductive t : Type :=
| Fin (neg : bool) (c : Z) (e : Z)
| Inf (neg : bool)
| NaN.

(** Number of decimal digits of [c] (0 for [c <= 0]). *)
Fixpoint digits_fuel (fuel : nat) (c : Z) : Z :=
  match fuel with
  | O => 0
  | S f => if c <=? 0 then 0 else 1 + digits_fuel f (c / 10)
  end.

Definition digits (c : Z) : Z := digits_fuel (S (Z.to_nat (Z.log2 c))) c.

(** Removal of trailing zero digits. *)
Fixpoint strip_fuel (fuel : nat) (c e : Z) : Z * Z :=
  match fuel with
  | O => (c, e)
  | S f => if c mod 10 =? 0 then strip_fuel f (c / 10) (e + 1) else (c, e)
  end.

Definition normalise (neg : bool) (c e : Z) : t :=
  if c <=? 0 then Fin neg 0 0
  else let '(c', e') := strip_fuel (Z.to_nat (Z.log2 c)) c e in Fin neg c' e'.

(** [finalise]: rounding of an exact coefficient to [precision] significant
    digits, ROUND_HALF_UP (ties away from zero). *)
Definition finalise (neg : bool) (c e : Z) : t :=
  let drop := digits c - precision in
  if drop <=? 0 then normalise neg c e
  else
    let q := c / 10 ^ drop in
    let r := c mod 10 ^ drop in
    normalise neg (if 10 ^ drop <=? 2 * r then q + 1 else q) (e + drop).

(** [new Decimal(n.toString())] for an integer [n]: exact, no rounding. *)
Definition ofZ (n : Z) : t := normalise (n <? 0) (Z.abs n) 0.

Definition signed (neg : bool) (c : Z) : Z := if neg then - c else c.

(** [x.mul(y)] *)
Definition mul (x y : t) : t :=
  match x, y with
  | NaN, _ | _, NaN => NaN
  | Inf s, Inf s' => Inf (xorb s s')
  | Inf s, Fin s' c _ => if c =? 0 then NaN else Inf (xorb s s')
  | Fin s c _, Inf s' => if c =? 0 then NaN else Inf (xorb s s')
  | Fin s c e, Fin s' c' e' => finalise (xorb s s') (c * c') (e + e')
  end.

(** [x.div(y)].  The quotient is taken with at least [precision + 1] digits;
    with ties rounded away from zero the digits beyond them cannot change the
    rounding. *)
Definition div (x y : t) : t :=
  match x, y with
  | NaN, _ | _, NaN => NaN
  | Inf _, Inf _ => NaN
  | Inf s, Fin s' _ _ => Inf (xorb s s')
  | Fin s _ _, Inf s' => Fin (xorb s s') 0 0
  | Fin s c e, Fin s' c' e' =>
      if c' =? 0 then (if c =? 0 then NaN else Inf (xorb s s'))
      else
        let k := Z.max 0 (precision + 1 + digits c' - digits c) in
        finalise (xorb s s') (c * 10 ^ k / c') (e - e' - k)
  end.

(** [x.sub(y)] *)
Definition sub (x y : t) : t :=
  match x, y with
  | NaN, _ | _, NaN => NaN
  | Inf s, Inf s' => if Bool.eqb s s' then NaN else Inf s
  | Inf s, Fin _ _ _ => Inf s
  | Fin _ _ _, Inf s' => Inf (negb s')
  | Fin s c e, Fin s' c' e' =>
      if (c =? 0) && (c' =? 0) then Fin (s && negb s') 0 0
      else
        let m := Z.min e e' in
        let d := signed s (c * 10 ^ (e - m)) - signed s' (c' * 10 ^ (e' - m)) in
        finalise (d <? 0) (Z.abs d) m
  end.

(** [x.pow(-1)]: the library computes [new Decimal(1).div(x)] (and maps
    zero and the infinities as the division does). *)
Definition inv (x : t) : t := div (ofZ 1) x.

(** [new Decimal(2).pow(96)]: an integer exponent gives the exact power
    (29 digits), which the library then rounds to [precision] digits. *)
Definition Q96 : t := finalise false (2 ^ 96) 0.

(** The value [10^k]. *)
Definition tenPow (k : Z) : t := Fin false 1 k.

(** The rational a value denotes (for statements; special values map to 0). *)
Definition toQ (x : t) : Q :=
  match x with
  | Fin s c e => (inject_Z (signed s c) * 10 ^ e)%Q
  | _ => 0%Q
  end.

(** A value that an arithmetic operation of the library can return: at most
    [precision] significant digits. *)
Definition atPrecision (x : t) : Prop :=
  match x with
  | Fin _ c e => (c = 0 /\ e = 0) \/ (0 < c /\ c mod 10 <> 0 /\ digits c <= precision)
  | _ => True
  end.

(** Parsing of a string of decimal digits, as the constructor does for the
    integer strings this program builds. *)
Definition digitOf (a : ascii) : option Z :=
  let n := Z.of_nat (nat_of_ascii a) in
  if (48 <=? n) && (n <=? 57) then Some (n - 48) else None.

Fixpoint parseDigits (acc : Z) (s : string) : option Z :=
  match s with
  | EmptyString => Some acc
  | String a rest =>
      match digitOf a with
      | Some d => parseDigits (10 * acc + d) rest
      | None => None
      end
  end.

(** [new Decimal(s)] for a digit string [s]; the library raises on anything
    else, which is rendered here as [NaN]. *)
Definition ofString (s : string) : t :=
  match s with
  | EmptyString => NaN
  | _ => match parseDigits 0 s with
         | Some n => normalise false n 0
         | None => NaN
         end
  end.

End Decimal.

(** ** JavaScript numbers (binary64) *)

Module JsNumber.

(** [Number(s)] for the decimal string of an integer: the nearest binary64
    value, ties to even. *)
Definition ofZ (n : Z) : float := SF2Prim (binary_normalize prec emax n 0 false).

(** The binary64 value nearest to [n / d] for positive integers [n], [d]. *)
Definition ofRatio (neg : bool) (n d : Z) : float :=
  let '(q, e, l) := SFdiv_core_binary prec emax n 0 d 0 in
  SF2Prim (binary_round_aux prec emax neg q e l).

(** [Number(x.toString())] for a [Decimal] [x]: the nearest binary64 value.
    [toString] prints both zeros as "0". *)
Definition ofDecimal (x : Decimal.t) : float :=
  match x with
  | Decimal.NaN => nan
  | Decimal.Inf s => if s then neg_infinity else infinity
  | Decimal.Fin s c e =>
      if c <=? 0 then PrimFloat.zero
      else if 0 <=? e then ofZ (Decimal.signed s (c * 10 ^ e))
      else ofRatio s c (10 ^ (- e))
  end.

(** [Math.min(x, y)]: NaN if either is NaN, and -0 below +0. *)
Definition min (x y : float) : float :=
  if is_nan x || is_nan y then nan
  else if (x <? y)%float then x
  else if (y <? x)%float then y
  else if get_sign x then x else y.

(** The rational a finite binary64 value denotes. *)
Definition toQ (x : float) : Q :=
  match Prim2SF x with
  | S754_finite s m e => (inject_Z (Decimal.signed s (Zpos m)) * 2 ^ e)%Q
  | _ => 0%Q
  end.


Definition specIsZero (x : spec_float) : bool :=
  match x with S754_zero _ => true | _ => false end.

(** [Number.isNaN] and [Number.isFinite]. *)
Definition isNaN (x : float) : bool :=
  match Prim2SF x with S754_nan => true | _ => false end.

Definition isFinite (x : float) : bool :=
  match Prim2SF x with S754_zero _ | S754_finite _ _ _ => true | _ => false end.

(** Equality of numbers that also relates NaN to itself (and +0 to -0):
    ECMAScript's SameValueZero. *)
Definition sameValueZero (x y : float) : bool :=
  (x =? y)%float || (isNaN x && isNaN y).

End JsNumber.

(** ** The arithmetic the algorithms are written over *)

Class Arith (T : Type) : Type := {
  azero : T;
  asub : T -> T -> T;
  amul : T -> T -> T;
  adiv : T -> T -> T;
  ainv : T -> T
}.

Class Ordered (T : Type) : Type := {
  aleb : T -> T -> bool;
  amin : T -> T -> T
}.

Declare Scope arith_scope.
Delimit Scope arith_scope with arith.
Infix "-" := asub : arith_scope.
Infix "*" := amul : arith_scope.
Infix "/" := adiv : arith_scope.
Infix "<=?" := aleb : arith_scope.
Notation "x >=? y" := (aleb y x) (at level 70) : arith_scope.

(** JavaScript [number]: [-], [*], [/], [<=], [>=], [Math.min]. *)
#[export] Instance Arith_number : Arith float := {
  azero := PrimFloat.zero;
  asub := PrimFloat.sub;
  amul := PrimFloat.mul;
  adiv := PrimFloat.div;
  ainv := PrimFloat.div PrimFloat.one
}.

#[export] Instance Ordered_number : Ordered float := {
  aleb := PrimFloat.leb;
  amin := JsNumber.min
}.

(** decimal.js: [sub], [mul], [div], [pow(-1)].  The program never compares
    two [Decimal]s. *)
#[export] Instance Arith_Decimal : Arith Decimal.t := {
  azero := Decimal.ofZ 0;
  asub := Decimal.sub;
  amul := Decimal.mul;
  adiv := Decimal.div;
  ainv := Decimal.inv
}.

(** Exact rational arithmetic, for the algebraic statements. *)
#[export] Instance Arith_Qc : Arith Qc := {
  azero := 0%Qc;
  asub := Qcminus;
  amul := Qcmult;
  adiv := Qcdiv;
  ainv := Qcinv
}.

#[export] Instance Ordered_Qc : Ordered Qc := {
  aleb := fun x y => Qle_bool x y;
  amin := fun x y => if Qle_bool x y then x else y
}.

Section Algorithms.

Context {T : Type} `{Arith T} `{Ordered T}.
Local Open Scope arith_scope.

(** [calculateV3Liquidity] (liquidity-from-amounts), lines 39-58. *)
Definition calculateV3Liquidity
    (amountX amountY sqrtPriceCurrent sqrtPriceLower sqrtPriceUpper : T) : T :=
  if sqrtPriceCurrent <=? sqrtPriceLower then
    amountX * (sqrtPriceUpper * sqrtPriceLower) / (sqrtPriceUpper - sqrtPriceLower)
  else if sqrtPriceCurrent >=? sqrtPriceUpper then
    amountY / (sqrtPriceUpper - sqrtPriceLower)
  else
    let lx := amountX * (sqrtPriceUpper * sqrtPriceCurrent)
              / (sqrtPriceUpper - sqrtPriceCurrent) in
    let ly := amountY / (sqrtPriceCurrent - sqrtPriceLower) in
    amin lx ly.

(** The divisors of the divisions [calculateV3Liquidity] performs, in the
    order it performs them. *)
Definition calculateV3Liquidity_divisors
    (sqrtPriceCurrent sqrtPriceLower sqrtPriceUpper : T) : list T :=
  if sqrtPriceCurrent <=? sqrtPriceLower then
    [sqrtPriceUpper - sqrtPriceLower]
  else if sqrtPriceCurrent >=? sqrtPriceUpper then
    [sqrtPriceUpper - sqrtPriceLower]
  else
    [sqrtPriceUpper - sqrtPriceCurrent; sqrtPriceCurrent - sqrtPriceLower].

(** The liquidity decomposition of [getPositionAmounts], lines 94-105:
    the pair (amount0, amount1). *)
Definition decomposeLiquidity
    (currentTick tickLower tickUpper : Z)
    (liquidity sqrtPriceCurrent sqrtPriceLower sqrtPriceUpper : T) : T * T :=
  if (currentTick <? tickLower)%Z then
    (liquidity * (ainv sqrtPriceLower - ainv sqrtPriceUpper), azero)
  else if (currentTick >? tickUpper)%Z then
    (azero, liquidity * (sqrtPriceUpper - sqrtPriceLower))
  else
    (liquidity * (ainv sqrtPriceCurrent - ainv sqrtPriceUpper),
     liquidity * (sqrtPriceCurrent - sqrtPriceLower)).

End Algorithms.

(** ** The chain as the program reads it *)

(** [nftContract.positions(positionId)] *)
Record Position : Type := {
  liquidity : Z;
  tickLower : Z;
  tickUpper : Z
}.

(** [poolContract.slot0()] *)
Record Slot0 : Type := {
  sqrtPriceX96 : Z;
  tick : Z
}.

(** The result of [nftContract.collect.staticCall(collectParams)]. *)
Module Collect.
Record t : Type := {
  amount0 : Z;
  amount1 : Z
}.
End Collect.

(** The position manager at the queried block.  A read that the provider
    rejects is [None]. *)
Record NftContract : Type := {
  positions : option Position;
  collect_staticCall : option Collect.t
}.

(** A pool at the queried block: its reads [token0()], [token1()] (token
    addresses) and [slot0()], and the [decimals()] reads of the token
    contracts at these two addresses (declared [uint8] in [tokenAbi]). *)
Record PoolContract : Type := {
  token0 : option string;
  token1 : option string;
  slot0 : option Slot0;
  decimals0 : option Z;
  decimals1 : option Z
}.

(** The instance fields of [V3LpValue]. *)
Record V3LpValue : Type := {
  rpcUrl : string;
  apiKey : string;
  priceLower : float;
  priceUpper : float
}.

(** [new V3LpValue(rpcUrl, apiKey)]: the field initialisers of lines 18-19. *)
Definition newV3LpValue (url key : string) : V3LpValue :=
  {| rpcUrl := url; apiKey := key;
     priceLower := PrimFloat.zero; priceUpper := 999999999999%float |}.

(** [PositionValue & { blockNumber }] *)
Record PositionValue : Type := {
  blockNumber : Z;
  tokenPrice : float;
  tokenXPrice : float;
  tokenYPrice : float;
  positionValue : float;
  unclaimedFees : float;
  totalValue : float
}.

(** A rejected promise propagates: the option monad. *)
Notation "x <- e1 ;; e2" :=
  (match e1 with Some x => e2 | None => None end)
  (at level 61, e1 at next level, right associativity).
Notation "' p <- e1 ;; e2" :=
  (match e1 with Some p => e2 | None => None end)
  (at level 61, p pattern, e1 at next level, right associativity).

(** [calculatePositionValue], lines 61-70. *)
Definition calculatePositionValue
    (liquidity currentPrice tokenXPriceUsd tokenYPriceUsd : float) : float :=
  let amountX := (liquidity / sqrt currentPrice)%float in
  let amountY := (liquidity * sqrt currentPrice)%float in
  ((amountX * tokenXPriceUsd) + (amountY * tokenYPriceUsd))%float.

(** ['0'.repeat(n)] *)
Fixpoint repeat0 (n : nat) : string :=
  match n with
  | O => EmptyString
  | S k => String "0" (repeat0 k)
  end.

(** [new Decimal('1' + '0'.repeat(Math.abs(decimalDiff)))], line 162. *)
Definition decimalAdjustment (decimalDiff : Z) : Decimal.t :=
  Decimal.ofString (String "1" (repeat0 (Z.to_nat (Z.abs decimalDiff)))).

(** The decimal adjustment of [getTokenPriceFromPool], lines 160-165. *)
Definition adjustForDecimals (price : Decimal.t) (decimals0 decimals1 : Z) : Decimal.t :=
  let decimalDiff := decimals0 - decimals1 in
  if decimalDiff >=? 0
  then Decimal.mul price (decimalAdjustment decimalDiff)
  else Decimal.div price (decimalAdjustment decimalDiff).

Section Valuation.

(** [new Decimal(1.0001).pow(tick / 2)], lines 91-92.  For a half-integer
    exponent the library goes through its logarithm and exponential series;
    the function is taken as given. *)
Variable sqrtPriceAtTick : Z -> Decimal.t.

(** [10 ** d] for the token decimals [d], lines 258-259 and 272-273.
    ECMAScript specifies the result of [**] as an approximation that the
    implementation chooses, and engines do not round every power of ten
    correctly; the operator is taken as given. *)
Variable pow10 : Z -> float.

(** [getPositionAmounts], lines 73-134. *)
Definition getPositionAmounts (nftContract : NftContract) (poolContract : PoolContract)
    : option (float * float * float * float) :=
  position <- positions nftContract ;;
  let liquidity := Decimal.ofZ (liquidity position) in
  let tickLower := tickLower position in
  let tickUpper := tickUpper position in
  slot0 <- slot0 poolContract ;;
  let sqrtPriceX96 := Decimal.ofZ (sqrtPriceX96 slot0) in
  let currentTick := tick slot0 in
  let sqrtPriceCurrent := Decimal.div sqrtPriceX96 Decimal.Q96 in
  let sqrtPriceLower := sqrtPriceAtTick tickLower in
  let sqrtPriceUpper := sqrtPriceAtTick tickUpper in
  let '(amount0, amount1) :=
    decomposeLiquidity currentTick tickLower tickUpper
      liquidity sqrtPriceCurrent sqrtPriceLower sqrtPriceUpper in
  match collect_staticCall nftContract with
  | Some unclaimedFees =>
      Some (JsNumber.ofDecimal amount0, JsNumber.ofDecimal amount1,
            JsNumber.ofZ (Collect.amount0 unclaimedFees),
            JsNumber.ofZ (Collect.amount1 unclaimedFees))
  | None =>
      Some (JsNumber.ofDecimal amount0, JsNumber.ofDecimal amount1,
            PrimFloat.zero, PrimFloat.zero)
  end.

(** [getTokenPriceFromPool], lines 137-168 (the parameter [isToken0] is
    not used by the source).  The two token addresses are awaited first and
    serve to address the [decimals()] reads only. *)
Definition getTokenPriceFromPool (poolContract : PoolContract) : option (float * Z * Z) :=
  token0 <- token0 poolContract ;;
  token1 <- token1 poolContract ;;
  decimals0 <- decimals0 poolContract ;;
  decimals1 <- decimals1 poolContract ;;
  slot0 <- slot0 poolContract ;;
  let sqrtPriceX96 := Decimal.ofZ (sqrtPriceX96 slot0) in
  let sqrtPrice := Decimal.div sqrtPriceX96 Decimal.Q96 in
  let price := Decimal.mul sqrtPrice sqrtPrice in
  let actualPrice := adjustForDecimals price decimals0 decimals1 in
  Some (JsNumber.ofDecimal actualPrice, decimals0, decimals1).

(** [amount / (10 ** decimals)], lines 258-259. *)
Definition scaleAmount (amount : float) (decimals : Z) : float :=
  (amount / pow10 decimals)%float.

(** The local [liquidity] of [calculateLpValue], lines 253-263: the display
    liquidity for the configured price window. *)
Definition displayLiquidity (self : V3LpValue)
    (amountX amountY tokenPrice : float) (decimals0 decimals1 : Z) : float :=
  let sqrtPriceCurrent := sqrt tokenPrice in
  let sqrtPriceLower := sqrt (priceLower self) in
  let sqrtPriceUpper := sqrt (priceUpper self) in
  calculateV3Liquidity
    (scaleAmount amountX decimals0)
    (scaleAmount amountY decimals1)
    sqrtPriceCurrent sqrtPriceLower sqrtPriceUpper.

(** The local [feeValue] of [calculateLpValue], lines 272-273. *)
Definition feeValue (feeX feeY tokenXUPrice tokenYUPrice : float)
    (decimals0 decimals1 : Z) : float :=
  ((feeX * tokenXUPrice / pow10 decimals0)
   + (feeY * tokenYUPrice / pow10 decimals1))%float.

(** [calculateLpValue], lines 199-286.  [poolXU] and [poolYU] are the pools
    behind [poolXUAddress] and [poolYUAddress] ([None] for the empty
    address); [latestBlock] is [provider.getBlockNumber()]. *)
Definition calculateLpValue (self : V3LpValue)
    (nftContract : NftContract) (poolContract : PoolContract)
    (blockNumber : option Z) (latestBlock : option Z)
    (poolXU poolYU : option PoolContract) : option PositionValue :=
  '(amountX, amountY, feeX, feeY) <- getPositionAmounts nftContract poolContract ;;
  '(tokenPrice, decimals0, decimals1) <- getTokenPriceFromPool poolContract ;;
  tokenXUPrice <- match poolXU with
                  | Some p => '(pr, _, _) <- getTokenPriceFromPool p ;; Some pr
                  | None => Some tokenPrice
                  end ;;
  tokenYUPrice <- match poolYU with
                  | Some p => '(pr, _, _) <- getTokenPriceFromPool p ;; Some pr
                  | None => Some PrimFloat.one
                  end ;;
  let liquidity := displayLiquidity self amountX amountY tokenPrice decimals0 decimals1 in
  let positionValue := calculatePositionValue liquidity tokenPrice tokenXUPrice tokenYUPrice in
  let feeValue := feeValue feeX feeY tokenXUPrice tokenYUPrice decimals0 decimals1 in
  currentBlock <- match blockNumber with
                  | Some b => if b =? 0 then latestBlock else Some b
                  | None => latestBlock
                  end ;;
  Some {| blockNumber := currentBlock;
          tokenPrice := tokenPrice;
          tokenXPrice := tokenXUPrice;
          tokenYPrice := tokenYUPrice;
          positionValue := positionValue;
          unclaimedFees := feeValue;
          totalValue := (positionValue + feeValue)%float |}.

End Valuation.

(** ** Predicates for statements *)

(** The five reads [getTokenPriceFromPool] awaits on a pool all succeed. *)
Definition poolReadable (p : PoolContract) : Prop :=
  token0 p <> None /\ token1 p <> None
  /\ decimals0 p <> None /\ decimals1 p <> None /\ slot0 p <> None.

(** A specified binary64 value that is +0, positive or +Infinity. *)
Definition specNonNegative (x : spec_float) : bool :=
  match x with
  | S754_zero false | S754_finite false _ _ | S754_infinity false => true
  | _ => false
  end.

(** A number that is +0, positive or +Infinity (so neither NaN, nor
    negative, nor -0). *)
Definition nonNegativeNumber (x : float) : bool := specNonNegative (Prim2SF x).

(** A finite [Decimal] that is zero or positive. *)
Definition nonNegativeDecimal (x : Decimal.t) : Prop :=
  match x with
  | Decimal.Fin false c _ => 0 <= c
  | _ => False
  end.

(** A number that is a zero of either sign, or NaN. *)
Definition zeroOrNaN (x : float) : bool :=
  match Prim2SF x with S754_zero _ | S754_nan => true | _ => false end.

(** A number that cannot be a price: NaN, or below zero. *)
Definition notAPrice (x : float) : bool :=
  JsNumber.isNaN x || (x <? 0)%float.

(** ** Worked inputs *)

Module Examples.

(** The library's values of [new Decimal(1.0001).pow(t / 2)] at the even
    ticks -2, 0 and 2, where the exponent is the integer -1, 0 or 1 and the
    result is [1 / 1.0001] rounded, [1] and [1.0001].  The examples use no
    other tick. *)
Definition sqrtPriceAtTick (t : Z) : Decimal.t :=
  match t with
  | 0 => Decimal.ofZ 1
  | 2 => Decimal.Fin false 10001 (-4)
  | -2 => Decimal.inv (Decimal.Fin false 10001 (-4))
  | _ => Decimal.NaN
  end.

(** A position on ticks [0, 2] while the pool sits inside tick 2: the
    square-root price is 1.00011, between 1.0001^(2/2) and 1.0001^(3/2). *)
Definition positionAtUpperTick : Position :=
  {| liquidity := 10 ^ 18; tickLower := 0; tickUpper := 2 |}.

Definition slot0InsideTick2 : Slot0 :=
  {| sqrtPriceX96 := 79236878000000000000000000000; tick := 2 |}.

(** A position on ticks [-2, 2] in a pool at price 1 (tick 0), both tokens
    with 6 decimals. *)
Definition nftCentered (fees : option Collect.t) : NftContract :=
  {| positions := Some {| liquidity := 10 ^ 18; tickLower := -2; tickUpper := 2 |};
     collect_staticCall := fees |}.

Definition poolAtPar : PoolContract :=
  {| token0 := Some "0xA0"%string; token1 := Some "0xA1"%string;
     slot0 := Some {| sqrtPriceX96 := 2 ^ 96; tick := 0 |};
     decimals0 := Some 6; decimals1 := Some 6 |}.

(** A pool that was never initialised: its square-root price reads 0. *)
Definition poolUninitialised : PoolContract :=
  {| token0 := Some "0xA0"%string; token1 := Some "0xA1"%string;
     slot0 := Some {| sqrtPriceX96 := 0; tick := 0 |};
     decimals0 := Some 18; decimals1 := Some 6 |}.

(** An engine whose [10 ** d] is the number nearest to [10^d].  The worked
    inputs use the exponents 6 and 18 only, where [10^d] is itself a
    binary64 value. *)
Definition pow10 (d : Z) : float :=
  if 0 <=? d then JsNumber.ofZ (10 ^ d) else JsNumber.ofRatio false 1 (10 ^ (- d)).

Definition someFees : Collect.t := {| Collect.amount0 := 1500000; Collect.amount1 := 2500000 |}.

(** Two clients that differ in the configured price window only. *)
Definition clientDefault : V3LpValue := newV3LpValue "rpc" "key".

Definition clientWindowed : V3LpValue :=
  {| rpcUrl := "rpc"; apiKey := "key"; priceLower := 0.25%float; priceUpper := 4%float |}.

(** A client with another endpoint and key and the default window. *)
Definition clientOtherEndpoint : V3LpValue := newV3LpValue "rpc2" "key2".

End Examples.

(** * Properties *)

(** ** Decimal digits, normalisation and rounding *)

Module DecimalFacts.
Import Decimal.

Lemma digits_fuel_zero (f : nat) : digits_fuel f 0 = 0.
Proof. destruct f; reflexivity. Qed.

Lemma digits_fuel_bounds (f : nat) :
  forall c, 0 < c -> c < 2 ^ Z.of_nat f ->
    1 <= digits_fuel f c /\ 10 ^ (digits_fuel f c - 1) <= c < 10 ^ digits_fuel f c.
Proof.
  induction f as [|f IH]; intros c Hpos Hlt.
  - simpl in Hlt. lia.
  - cbn [digits_fuel].
    destruct (c <=? 0) eqn:Hc; [apply Z.leb_le in Hc; lia|].
    destruct (Z_lt_le_dec c 10) as [Hsmall|Hbig].
    + rewrite Z.div_small by lia. rewrite digits_fuel_zero.
      replace (1 + 0 - 1) with 0 by lia. simpl. lia.
    + assert (Hq : 0 < c / 10) by (apply Z.div_str_pos; lia).
      assert (Hq2 : c / 10 < 2 ^ Z.of_nat f).
      { rewrite Nat2Z.inj_succ, Z.pow_succ_r in Hlt by lia.
        assert (0 < 2 ^ Z.of_nat f) by (apply Z.pow_pos_nonneg; lia).
        apply Z.div_lt_upper_bound; lia. }
      destruct (IH _ Hq Hq2) as (Hd & Hlo & Hhi).
      set (d := digits_fuel f (c / 10)) in *.
      replace (1 + d - 1) with (Z.succ (d - 1)) by lia.
      replace (1 + d) with (Z.succ d) by lia.
      rewrite !Z.pow_succ_r by lia.
      pose proof (Z.div_mod c 10 ltac:(lia)) as Hdm.
      pose proof (Z.mod_pos_bound c 10 ltac:(lia)) as Hm.
      lia.
Qed.

Lemma digits_bounds (c : Z) :
  0 < c -> 1 <= digits c /\ 10 ^ (digits c - 1) <= c < 10 ^ digits c.
Proof.
  intros Hc. unfold digits. apply digits_fuel_bounds; [assumption|].
  rewrite Nat2Z.inj_succ, Z2Nat.id by apply Z.log2_nonneg.
  apply Z.log2_spec; assumption.
Qed.

Lemma digits_unique (c d : Z) :
  0 < c -> 1 <= d -> 10 ^ (d - 1) <= c < 10 ^ d -> digits c = d.
Proof.
  intros Hc Hd [Hlo Hhi].
  destruct (digits_bounds c Hc) as (Hd' & Hlo' & Hhi').
  destruct (Z.lt_trichotomy (digits c) d) as [Hlt | [Heq | Hgt]]; [|assumption|].
  - assert (10 ^ digits c <= 10 ^ (d - 1)) by (apply Z.pow_le_mono_r; lia). lia.
  - assert (10 ^ d <= 10 ^ (digits c - 1)) by (apply Z.pow_le_mono_r; lia). lia.
Qed.

Lemma digits_mul_pow10 (c k : Z) :
  0 < c -> 0 <= k -> digits (c * 10 ^ k) = digits c + k.
Proof.
  intros Hc Hk.
  destruct (digits_bounds c Hc) as (Hd & Hlo & Hhi).
  assert (Hp : 0 < 10 ^ k) by (apply Z.pow_pos_nonneg; lia).
  apply digits_unique; [nia | lia |].
  replace (digits c + k - 1) with ((digits c - 1) + k) by lia.
  rewrite !Z.pow_add_r by lia. nia.
Qed.

Lemma strip_fuel_pow10 (k : nat) :
  forall (f : nat) (c e : Z), 0 < c -> c mod 10 <> 0 -> (k <= f)%nat ->
    strip_fuel f (c * 10 ^ Z.of_nat k) e = (c, e + Z.of_nat k).
Proof.
  induction k as [|k IH]; intros f c e Hc Hm Hf.
  - simpl. rewrite Z.mul_1_r, Z.add_0_r.
    destruct f; cbn [strip_fuel]; [reflexivity|].
    destruct (c mod 10 =? 0) eqn:E; [apply Z.eqb_eq in E; contradiction | reflexivity].
  - destruct f as [|f]; [lia|]. cbn [strip_fuel].
    rewrite Nat2Z.inj_succ, Z.pow_succ_r by lia.
    replace (c * (10 * 10 ^ Z.of_nat k)) with (c * 10 ^ Z.of_nat k * 10) by ring.
    rewrite Z.mod_mul, Z.div_mul by lia. cbn [Z.eqb].
    rewrite IH by (assumption || lia). f_equal. lia.
Qed.

Lemma normalise_pow10 (neg : bool) (c e k : Z) :
  0 < c -> c mod 10 <> 0 -> 0 <= k ->
  normalise neg (c * 10 ^ k) e = Fin neg c (e + k).
Proof.
  intros Hc Hm Hk. unfold normalise.
  assert (Hp : 0 < 10 ^ k) by (apply Z.pow_pos_nonneg; lia).
  destruct (c * 10 ^ k <=? 0) eqn:E; [apply Z.leb_le in E; nia|].
  rewrite <- (Z2Nat.id k) at 2 by assumption.
  rewrite strip_fuel_pow10; [rewrite Z2Nat.id by assumption; reflexivity|assumption..|].
  apply Z2Nat.inj_le; [assumption | apply Z.log2_nonneg |].
  transitivity (Z.log2 (2 ^ k)); [rewrite Z.log2_pow2 by assumption; lia|].
  apply Z.log2_le_mono.
  assert (2 ^ k <= 10 ^ k) by (apply Z.pow_le_mono_l; lia). nia.
Qed.

Lemma normalise_exact (neg : bool) (c e : Z) :
  0 < c -> c mod 10 <> 0 -> normalise neg c e = Fin neg c e.
Proof.
  intros Hc Hm. pose proof (normalise_pow10 neg c e 0 Hc Hm ltac:(lia)) as H.
  rewrite Z.pow_0_r, Z.mul_1_r, Z.add_0_r in H. exact H.
Qed.

(** Rounding is the identity on a coefficient that already fits. *)
Lemma finalise_pow10 (neg : bool) (c e k : Z) :
  0 < c -> c mod 10 <> 0 -> digits c <= precision -> 0 <= k ->
  finalise neg (c * 10 ^ k) e = Fin neg c (e + k).
Proof.
  intros Hc Hm Hd Hk. unfold finalise.
  rewrite digits_mul_pow10 by assumption.
  destruct (digits c + k - precision <=? 0) eqn:E.
  - apply normalise_pow10; assumption.
  - apply Z.leb_gt in E.
    set (drop := digits c + k - precision) in *.
    assert (Hdk : drop <= k) by (unfold drop; lia).
    replace (c * 10 ^ k) with (c * 10 ^ (k - drop) * 10 ^ drop)
      by (rewrite <- Z.mul_assoc, <- Z.pow_add_r by lia; f_equal; f_equal; lia).
    assert (Hp : 0 < 10 ^ drop) by (apply Z.pow_pos_nonneg; lia).
    rewrite Z.mod_mul, Z.div_mul by lia.
    replace (10 ^ drop <=? 2 * 0) with false by (symmetry; apply Z.leb_gt; lia).
    rewrite normalise_pow10 by (assumption || lia). f_equal. lia.
Qed.

Lemma parseDigits_repeat0 (n : nat) :
  forall acc, parseDigits acc (repeat0 n) = Some (acc * 10 ^ Z.of_nat n).
Proof.
  induction n as [|n IH]; intros acc.
  - simpl. f_equal. lia.
  - cbn [repeat0 parseDigits]. change (digitOf "0") with (Some 0). cbv beta iota.
    rewrite IH, Nat2Z.inj_succ, Z.pow_succ_r by lia. f_equal. ring.
Qed.

(** The string ['1' + '0'.repeat(n)] denotes exactly [10^n]. *)
Lemma decimalAdjustment_value (decimalDiff : Z) :
  decimalAdjustment decimalDiff = Fin false 1 (Z.abs decimalDiff).
Proof.
  unfold decimalAdjustment, ofString. cbn [parseDigits].
  change (digitOf "1") with (Some 1). cbv beta iota.
  rewrite parseDigits_repeat0, Z2Nat.id by apply Z.abs_nonneg.
  change (10 * 0 + 1) with 1.
  rewrite (normalise_pow10 false 1 0 (Z.abs decimalDiff)) by (apply Z.abs_nonneg || lia || (cbn; lia)).
  reflexivity.
Qed.

Lemma digits_one : digits 1 = 1.
Proof. reflexivity. Qed.

(** Multiplying and dividing by a power of ten only moves the exponent. *)
Lemma mul_pow10 (p : t) (k : Z) :
  atPrecision p -> 0 <= k ->
  mul p (Fin false 1 k) =
    match p with Fin s c e => if c =? 0 then p else Fin s c (e + k) | _ => p end.
Proof.
  intros Hp Hk. destruct p as [s c e| s |]; cbn [mul atPrecision] in *.
  - rewrite xorb_false_r, Z.mul_1_r.
    destruct Hp as [[-> ->] | (Hc & Hm & Hd)]; [reflexivity|].
    destruct (c =? 0) eqn:E; [apply Z.eqb_eq in E; lia|].
    pose proof (finalise_pow10 s c (e + k) 0 Hc Hm Hd ltac:(lia)) as H.
    rewrite Z.pow_0_r, Z.mul_1_r, Z.add_0_r in H. exact H.
  - rewrite xorb_false_r. reflexivity.
  - reflexivity.
Qed.

Lemma div_pow10 (p : t) (k : Z) :
  atPrecision p -> 0 <= k ->
  div p (Fin false 1 k) =
    match p with Fin s c e => if c =? 0 then p else Fin s c (e - k) | _ => p end.
Proof.
  intros Hp Hk. destruct p as [s c e| s |]; cbn [div atPrecision] in *.
  - change (1 =? 0) with false. cbv iota. rewrite xorb_false_r, digits_one.
    destruct Hp as [[-> ->] | (Hc & Hm & Hd)]; [reflexivity|].
    destruct (c =? 0) eqn:E; [apply Z.eqb_eq in E; lia|].
    rewrite Z.div_1_r.
    destruct (digits_bounds c Hc) as (Hd1 & _).
    rewrite finalise_pow10 by (assumption || lia). f_equal. lia.
  - rewrite xorb_false_r. reflexivity.
  - reflexivity.
Qed.

(** The results of the library's operations are at working precision. *)
Lemma atPrecision_pow10 (s : bool) (c e k : Z) :
  atPrecision (Fin s c e) -> atPrecision (if c =? 0 then Fin s c e else Fin s c (e + k)).
Proof.
  intros Hp. destruct (c =? 0) eqn:E; [exact Hp|].
  apply Z.eqb_neq in E. cbn in *. destruct Hp as [[? ?]|?]; [lia | right; assumption].
Qed.

Lemma strip_fuel_spec (f : nat) :
  forall c e, 0 < c -> c < 2 ^ (Z.of_nat f + 1) ->
    exists j, 0 <= j /\ c = fst (strip_fuel f c e) * 10 ^ j
              /\ snd (strip_fuel f c e) = e + j
              /\ 0 < fst (strip_fuel f c e)
              /\ fst (strip_fuel f c e) mod 10 <> 0.
Proof.
  induction f as [|f IH]; intros c e Hc Hlt.
  - cbn in Hlt. assert (c = 1) by lia. subst c. exists 0. cbn. repeat split; lia.
  - cbn [strip_fuel]. destruct (c mod 10 =? 0) eqn:E.
    + apply Z.eqb_eq in E.
      pose proof (Z.div_mod c 10 ltac:(lia)) as Hdm.
      assert (Hq : 0 < c / 10) by lia.
      assert (Hq2 : c / 10 < 2 ^ (Z.of_nat f + 1)).
      { replace (Z.of_nat (S f) + 1) with (Z.succ (Z.of_nat f + 1)) in Hlt by lia.
        rewrite Z.pow_succ_r in Hlt by lia. lia. }
      destruct (IH (c / 10) (e + 1) Hq Hq2) as (j & Hj & Heq & He & Hpos & Hm).
      exists (j + 1). repeat split; try assumption; try lia.
      rewrite Z.pow_add_r, Z.pow_1_r by lia. lia.
    + apply Z.eqb_neq in E. exists 0. cbn. repeat split; lia.
Qed.

Lemma digits_le_precision (c : Z) : 0 < c -> c < 10 ^ precision -> digits c <= precision.
Proof.
  intros Hc Hlt. destruct (digits_bounds c Hc) as (Hd & Hlo & _).
  assert (10 ^ (digits c - 1) < 10 ^ precision) by lia.
  apply Z.pow_lt_mono_r_iff in H; unfold precision in *; lia.
Qed.

Lemma normalise_atPrecision (neg : bool) (c e : Z) :
  c <= 10 ^ precision -> atPrecision (normalise neg c e).
Proof.
  intros Hle. unfold normalise. destruct (c <=? 0) eqn:E; [cbn; left; split; reflexivity|].
  apply Z.leb_gt in E.
  assert (Hlt : c < 2 ^ (Z.of_nat (Z.to_nat (Z.log2 c)) + 1)).
  { rewrite Z2Nat.id by apply Z.log2_nonneg.
    replace (Z.log2 c + 1) with (Z.succ (Z.log2 c)) by lia.
    apply Z.log2_spec; assumption. }
  destruct (strip_fuel_spec _ c e E Hlt) as (j & Hj & Heq & _ & Hpos & Hm).
  destruct (strip_fuel (Z.to_nat (Z.log2 c)) c e) as [c' e']. cbn [fst snd] in *.
  cbn. right. repeat split; try assumption.
  apply digits_le_precision; [assumption|].
  assert (Hp : 1 <= 10 ^ j) by (apply (Z.pow_le_mono_r 10 0 j); lia).
  destruct (Z_lt_le_dec c' (10 ^ precision)) as [|Hge]; [assumption|exfalso].
  assert (c' = 10 ^ precision) by nia. subst c'. apply Hm. reflexivity.
Qed.

(** Every rounded result is at working precision. *)
Lemma finalise_atPrecision (neg : bool) (c e : Z) : atPrecision (finalise neg c e).
Proof.
  unfold finalise.
  destruct (Z_le_gt_dec c 0) as [Hc|Hc].
  { replace (digits c) with 0.
    - cbn. apply normalise_atPrecision. unfold precision. lia.
    - unfold digits. cbn [digits_fuel].
      destruct (c <=? 0) eqn:E; [reflexivity | apply Z.leb_gt in E; lia]. }
  destruct (digits_bounds c ltac:(lia)) as (Hd & Hlo & Hhi).
  destruct (digits c - precision <=? 0) eqn:E.
  - apply Z.leb_le in E. apply normalise_atPrecision.
    assert (10 ^ digits c <= 10 ^ precision) by (apply Z.pow_le_mono_r; lia). lia.
  - apply Z.leb_gt in E. set (drop := digits c - precision) in *.
    assert (Hp : 0 < 10 ^ drop) by (apply Z.pow_pos_nonneg; lia).
    assert (Hq : c / 10 ^ drop < 10 ^ precision).
    { apply Z.div_lt_upper_bound; [assumption|].
      rewrite <- Z.pow_add_r by (unfold precision; lia).
      replace (drop + precision) with (digits c) by (unfold drop; lia). assumption. }
    apply normalise_atPrecision.
    destruct (10 ^ drop <=? 2 * (c mod 10 ^ drop)); lia.
Qed.

Lemma mul_atPrecision (x y : t) : atPrecision (mul x y).
Proof.
  destruct x as [s c e| s |], y as [s' c' e'| s' |]; cbn [mul];
    try exact I; try apply finalise_atPrecision;
    match goal with |- context [if ?b then _ else _] => destruct b; exact I end.
Qed.

Lemma div_atPrecision (x y : t) : atPrecision (div x y).
Proof.
  destruct x as [s c e| s |], y as [s' c' e'| s' |]; cbn [div]; try exact I.
  - destruct (c' =? 0); [destruct (c =? 0); exact I | apply finalise_atPrecision].
  - cbn. left. split; reflexivity.
Qed.

End DecimalFacts.

(** ** Decimal adjustment of the pool price *)

(** Boolean comparisons of integers in the context, as propositions. *)
Ltac Zbool :=
  repeat match goal with
         | H : (_ <=? _) = true |- _ => apply Z.leb_le in H
         | H : (_ <=? _) = false |- _ => apply Z.leb_gt in H
         end.

Lemma adjustForDecimals_cases (price : Decimal.t) (decimals0 decimals1 : Z) :
  adjustForDecimals price decimals0 decimals1 =
    if decimals1 <=? decimals0
    then Decimal.mul price (Decimal.tenPow (decimals0 - decimals1))
    else Decimal.div price (Decimal.tenPow (decimals1 - decimals0)).
Proof.
  unfold adjustForDecimals. rewrite DecimalFacts.decimalAdjustment_value, Z.geb_leb.
  unfold Decimal.tenPow.
  destruct (decimals1 <=? decimals0) eqn:E1, (0 <=? decimals0 - decimals1) eqn:E2;
    Zbool; try lia; do 2 f_equal; lia.
Qed.


Lemma adjustForDecimals_atPrecision (p : Decimal.t) (d0 d1 : Z) :
  Decimal.atPrecision (adjustForDecimals p d0 d1).
Proof.
  rewrite adjustForDecimals_cases.
  destruct (d1 <=? d0);
    [apply DecimalFacts.mul_atPrecision | apply DecimalFacts.div_atPrecision].
Qed.

(** C7, as stated, fails.  The constructor does not round, so a decimal may
    carry more digits than the working precision; the first adjustment then
    rounds to 20 digits and the way back does not restore the value.  Here
    the price has 21 digits and the last one is lost. *)
Lemma adjustForDecimals_roundtrip_rounds :
  let p := Decimal.ofZ 123456789012345678901 in
  adjustForDecimals (adjustForDecimals p 18 6) 6 18
  = Decimal.Fin false 1234567890123456789 2
  /\ adjustForDecimals (adjustForDecimals p 18 6) 6 18 <> p.
Proof.
  split; [vm_compute; reflexivity | vm_compute; discriminate].
Qed.

(** C7, amended.  Decimal adjustment round-trips exactly on every value at
    the working precision (at most 20 significant digits, or a special
    value), for all decimal precisions [d0], [d1]: adjusting with (d0, d1)
    and then adjusting the result with (d1, d0) returns the value.  Every
    result of the library's arithmetic is such a value, in particular every
    pool price [sqrtPrice.mul(sqrtPrice)] that the program adjusts. *)
Theorem adjustForDecimals_roundtrip (p : Decimal.t) (d0 d1 : Z) :
  Decimal.atPrecision p ->
  adjustForDecimals (adjustForDecimals p d0 d1) d1 d0 = p.
Proof.
  intros Hp. rewrite !adjustForDecimals_cases. unfold Decimal.tenPow.
  assert (Hshift : forall k,
            Decimal.atPrecision
              (match p with
               | Decimal.Fin s c e => if c =? 0 then p else Decimal.Fin s c (e + k)
               | _ => p
               end)).
  { intros k. destruct p as [s c e| |]; try exact I.
    apply DecimalFacts.atPrecision_pow10; assumption. }
  destruct (d1 <=? d0) eqn:E1, (d0 <=? d1) eqn:E2; Zbool; try lia.
  - rewrite (DecimalFacts.mul_pow10 p) by (assumption || lia).
    rewrite DecimalFacts.mul_pow10 by (apply Hshift || lia).
    destruct p as [s c e| |]; try reflexivity.
    destruct (c =? 0) eqn:E; rewrite ?E; [reflexivity | f_equal; lia].
  - rewrite (DecimalFacts.mul_pow10 p) by (assumption || lia).
    rewrite DecimalFacts.div_pow10 by (apply Hshift || lia).
    destruct p as [s c e| |]; try reflexivity.
    destruct (c =? 0) eqn:E; rewrite ?E; [reflexivity | f_equal; lia].
  - rewrite (DecimalFacts.div_pow10 p) by (assumption || lia).
    rewrite DecimalFacts.mul_pow10; [| |lia].
    + destruct p as [s c e| |]; try reflexivity.
      destruct (c =? 0) eqn:E; rewrite ?E; [reflexivity | f_equal; lia].
    + specialize (Hshift (- (d1 - d0))).
      destruct p as [s c e| |]; try exact I.
      replace (e - (d1 - d0)) with (e + - (d1 - d0)) by lia. exact Hshift.
Qed.

Lemma adjustForDecimals_roundtrip_witness :
  let sqrtPrice :=
    Decimal.div (Decimal.ofZ 79236878000000000000000000000) Decimal.Q96 in
  let price := Decimal.mul sqrtPrice sqrtPrice in
  Decimal.atPrecision price
  /\ adjustForDecimals (adjustForDecimals price 6 18) 18 6 = price.
Proof.
  intros sqrtPrice price.
  assert (Hp : Decimal.atPrecision price).
  { vm_compute. right. repeat split; discriminate. }
  split; [exact Hp|].
  apply (adjustForDecimals_roundtrip price 6 18 Hp).
Defined.



(** ** The scenarios of the specification *)

(** L = 1000000 on square-root prices 0.9 and 1.1, current 1.0 (within
    range): amount0 = 90909.09..., amount1 = 100000. *)
Example scenario_within_range :
  decomposeLiquidity 0 (-1) 1 (Decimal.ofZ 1000000) (Decimal.ofZ 1)
    (Decimal.Fin false 9 (-1)) (Decimal.Fin false 11 (-1))
  = (Decimal.Fin false 9090909090909090909 (-14), Decimal.Fin false 1 5).
Proof. vm_compute. reflexivity. Qed.

(** Same bounds, the current tick below the range: amount0 = 202020.2...,
    amount1 = 0. *)
Example scenario_below_range :
  decomposeLiquidity (-2) (-1) 1 (Decimal.ofZ 1000000) (Decimal.Fin false 8 (-1))
    (Decimal.Fin false 9 (-1)) (Decimal.Fin false 11 (-1))
  = (Decimal.Fin false 20202020202020202019 (-14), Decimal.Fin false 0 0).
Proof. vm_compute. reflexivity. Qed.

(** ** Numbers: inequality by computation *)

Lemma float_neq (x y : float) : PrimFloat.Leibniz.eqb x y = false -> x <> y.
Proof.
  intros H E. apply FloatAxioms.Leibniz.eqb_spec in E. congruence.
Qed.

(** ** The liquidity decomposition *)

(** C1 fails on the code.  With the pool inside tick 2 = tickUpper the
    square-root price 1.00011 is at least the upper bound 1.0001, where the
    claim (and the sibling [calculateV3Liquidity], which tests [c >= hi])
    has the above-range pair (0, L * (hi - lo)); the test on line 99 is
    [currentTick > tickUpper], strict, and the decomposition returns the
    within-range pair. *)
Lemma decomposeLiquidity_price_above_upper_bound :
  let L := Decimal.ofZ (10 ^ 18) in
  let c := Decimal.div (Decimal.ofZ 79236878000000000000000000000) Decimal.Q96 in
  let lo := Examples.sqrtPriceAtTick 0 in
  let hi := Examples.sqrtPriceAtTick 2 in
  (Decimal.toQ hi <= Decimal.toQ c)%Q
  /\ decomposeLiquidity 2 0 2 L c lo hi <> (azero, (L * (hi - lo))%arith)
  /\ decomposeLiquidity 2 0 2 L c lo hi
     = ((L * (ainv c - ainv hi))%arith, (L * (c - lo))%arith).
Proof.
  split; [|split].
  - apply Qle_bool_iff. vm_compute. reflexivity.
  - vm_compute. discriminate.
  - reflexivity.
Qed.

(** The decomposition selects its branch by tick index, with strict
    comparisons: a current tick below [tickLower] gives the below-range
    pair, a current tick above [tickUpper] the above-range pair, and a
    current tick from [tickLower] (included) up to [tickUpper] (excluded)
    the within-range pair. *)
Lemma decomposeLiquidity_by_ticks
    {T : Type} `{Arith T}
    (currentTick tickLower tickUpper : Z) (L c lo hi : T) :
  (currentTick < tickLower ->
     decomposeLiquidity currentTick tickLower tickUpper L c lo hi
     = ((L * (ainv lo - ainv hi))%arith, azero))
  /\ (tickLower <= currentTick -> tickUpper < currentTick ->
     decomposeLiquidity currentTick tickLower tickUpper L c lo hi
     = (azero, (L * (hi - lo))%arith))
  /\ (tickLower <= currentTick -> currentTick < tickUpper ->
     decomposeLiquidity currentTick tickLower tickUpper L c lo hi
     = ((L * (ainv c - ainv hi))%arith, (L * (c - lo))%arith)).
Proof.
  unfold decomposeLiquidity.
  repeat split; intros.
  - replace (currentTick <? tickLower) with true by (symmetry; apply Z.ltb_lt; lia).
    reflexivity.
  - replace (currentTick <? tickLower) with false by (symmetry; apply Z.ltb_ge; lia).
    replace (currentTick >? tickUpper) with true by (symmetry; apply Z.gtb_lt; lia).
    reflexivity.
  - replace (currentTick <? tickLower) with false by (symmetry; apply Z.ltb_ge; lia).
    replace (currentTick >? tickUpper) with false
      by (symmetry; rewrite Z.gtb_ltb; apply Z.ltb_ge; lia).
    reflexivity.
Qed.

(** The branches of liquidity-from-amounts are closed on the outside: the
    comparisons are [c <= lo] and [c >= hi] on the square-root prices. *)
Lemma calculateV3Liquidity_closed_outside
    {T : Type} `{Arith T} `{Ordered T} (amountX amountY c lo hi : T) :
  (aleb c lo = true ->
     calculateV3Liquidity amountX amountY c lo hi
     = (amountX * (hi * lo) / (hi - lo))%arith)
  /\ (aleb c lo = false -> aleb hi c = true ->
     calculateV3Liquidity amountX amountY c lo hi = (amountY / (hi - lo))%arith)
  /\ (aleb c lo = false -> aleb hi c = false ->
     calculateV3Liquidity amountX amountY c lo hi
     = amin (amountX * (hi * c) / (hi - c))%arith (amountY / (c - lo))%arith).
Proof.
  unfold calculateV3Liquidity.
  repeat split; intros;
    repeat match goal with Hc : aleb _ _ = _ |- _ => rewrite Hc; clear Hc end;
    reflexivity.
Qed.

(** C4 fails on the code.  The position has liquidity 10^18 and ticks 0 < 2,
    the pool a positive square-root price inside tick 2; the reported amount
    of asset0 is negative. *)
Theorem getPositionAmounts_negative_amount0 :
  let nft := {| positions := Some Examples.positionAtUpperTick; collect_staticCall := None |} in
  let pool := {| token0 := Some "0xA0"%string; token1 := Some "0xA1"%string;
                 slot0 := Some Examples.slot0InsideTick2;
                 decimals0 := Some 18; decimals1 := Some 6 |} in
  0 <= liquidity Examples.positionAtUpperTick
  /\ tickLower Examples.positionAtUpperTick < tickUpper Examples.positionAtUpperTick
  /\ 0 <= sqrtPriceX96 Examples.slot0InsideTick2
  /\ exists a0 a1 f0 f1,
       getPositionAmounts Examples.sqrtPriceAtTick nft pool = Some (a0, a1, f0, f1)
       /\ (a0 <? 0)%float = true.
Proof.
  cbn zeta.
  split; [vm_compute; discriminate|].
  split; [reflexivity|].
  split; [vm_compute; discriminate|].
  eexists _, _, _, _. split; [vm_compute; reflexivity | vm_compute; reflexivity].
Qed.

(** ** The valuation and the instance fields *)

(** C3, as stated, fails.  Two clients given the same position, pool state,
    token decimals, fee result, USD prices and block number, and differing
    in the configured price window only, report different values. *)
Lemma calculateLpValue_depends_on_price_window :
  calculateLpValue Examples.sqrtPriceAtTick Examples.pow10 Examples.clientDefault
    (Examples.nftCentered None) Examples.poolAtPar (Some 100) None None None
  <> calculateLpValue Examples.sqrtPriceAtTick Examples.pow10 Examples.clientWindowed
    (Examples.nftCentered None) Examples.poolAtPar (Some 100) None None None.
Proof.
  intro H.
  apply (f_equal (fun o => match o with Some r => positionValue r | None => nan end)) in H.
  vm_compute in H. revert H. apply float_neq. reflexivity.
Qed.

(** What a returned result is made of. *)
Lemma calculateLpValue_returns
    (sqrtPriceAtTick : Z -> Decimal.t) (pow10 : Z -> float) (self : V3LpValue)
    (nft : NftContract) (pool : PoolContract)
    (blockArg latestBlock : option Z) (poolXU poolYU : option PoolContract)
    (r : PositionValue) :
  calculateLpValue sqrtPriceAtTick pow10 self nft pool blockArg latestBlock poolXU poolYU
  = Some r ->
  exists amountX amountY feeX feeY price d0 d1 px py blk,
    getPositionAmounts sqrtPriceAtTick nft pool = Some (amountX, amountY, feeX, feeY)
    /\ getTokenPriceFromPool pool = Some (price, d0, d1)
    /\ match poolXU with
       | Some p => '(pr, _, _) <- getTokenPriceFromPool p ;; Some pr
       | None => Some price
       end = Some px
    /\ match poolYU with
       | Some p => '(pr, _, _) <- getTokenPriceFromPool p ;; Some pr
       | None => Some PrimFloat.one
       end = Some py
    /\ match blockArg with
       | Some b => if b =? 0 then latestBlock else Some b
       | None => latestBlock
       end = Some blk
    /\ r = {| blockNumber := blk;
              tokenPrice := price;
              tokenXPrice := px;
              tokenYPrice := py;
              positionValue :=
                calculatePositionValue
                  (displayLiquidity pow10 self amountX amountY price d0 d1) price px py;
              unclaimedFees := feeValue pow10 feeX feeY px py d0 d1;
              totalValue :=
                (calculatePositionValue
                   (displayLiquidity pow10 self amountX amountY price d0 d1) price px py
                 + feeValue pow10 feeX feeY px py d0 d1)%float |}.
Proof.
  unfold calculateLpValue. intros Hr.
  destruct (getPositionAmounts sqrtPriceAtTick nft pool) as [[[[aX aY] fX] fY]|];
    [|discriminate Hr].
  destruct (getTokenPriceFromPool pool) as [[[price d0] d1]|]; [|discriminate Hr].
  destruct (match poolXU with Some p => _ | None => _ end) as [px|] eqn:EX;
    [|discriminate Hr].
  destruct (match poolYU with Some p => _ | None => _ end) as [py|] eqn:EY;
    [|discriminate Hr].
  destruct (match blockArg with Some b => _ | None => _ end) as [blk|] eqn:EB;
    [|discriminate Hr].
  injection Hr as <-.
  exists aX, aY, fX, fY, price, d0, d1, px, py, blk.
  repeat (split; [reflexivity || assumption|]). reflexivity.
Qed.

(** C3, amended.  Two runs on the same position, pool state, token
    decimals, fee result, USD pools and block number, by clients that may
    differ in every instance field and with the provider's current block
    possibly different, always agree on the pool price, the two USD prices
    and the fee value.  They agree on the position value and the total when
    the clients agree on [priceLower] and [priceUpper]; and on the block
    number when a non-zero block number was given or the current block is
    the same.  With both provisos the two results are identical, whatever
    the endpoints and keys. *)
Theorem calculateLpValue_inputs
    (sqrtPriceAtTick : Z -> Decimal.t) (pow10 : Z -> float) (self1 self2 : V3LpValue)
    (nftContract : NftContract) (poolContract : PoolContract)
    (blockArg latest1 latest2 : option Z) (poolXU poolYU : option PoolContract)
    (r1 r2 : PositionValue) :
  calculateLpValue sqrtPriceAtTick pow10 self1 nftContract poolContract
    blockArg latest1 poolXU poolYU = Some r1 ->
  calculateLpValue sqrtPriceAtTick pow10 self2 nftContract poolContract
    blockArg latest2 poolXU poolYU = Some r2 ->
  let sameWindow :=
    priceLower self1 = priceLower self2 /\ priceUpper self1 = priceUpper self2 in
  let sameBlock :=
    (exists b, blockArg = Some b /\ b <> 0) \/ latest1 = latest2 in
  tokenPrice r1 = tokenPrice r2
  /\ tokenXPrice r1 = tokenXPrice r2
  /\ tokenYPrice r1 = tokenYPrice r2
  /\ unclaimedFees r1 = unclaimedFees r2
  /\ (sameWindow -> positionValue r1 = positionValue r2 /\ totalValue r1 = totalValue r2)
  /\ (sameBlock -> blockNumber r1 = blockNumber r2)
  /\ (sameWindow -> sameBlock -> r1 = r2).
Proof.
  intros H1 H2 sameWindow sameBlock.
  destruct (calculateLpValue_returns _ _ _ _ _ _ _ _ _ _ H1)
    as (aX & aY & fX & fY & price & d0 & d1 & px & py & blk1
        & HA & HP & HX & HY & HB1 & ->).
  destruct (calculateLpValue_returns _ _ _ _ _ _ _ _ _ _ H2)
    as (aX' & aY' & fX' & fY' & price' & d0' & d1' & px' & py' & blk2
        & HA' & HP' & HX' & HY' & HB2 & ->).
  rewrite HA in HA'. rewrite HP in HP'.
  assert (EA : (aX', aY', fX', fY') = (aX, aY, fX, fY)) by congruence.
  assert (EP : (price', d0', d1') = (price, d0, d1)) by congruence.
  inversion EA; subst aX' aY' fX' fY'. inversion EP; subst price' d0' d1'.
  rewrite HX in HX'. rewrite HY in HY'.
  assert (px' = px) by congruence. assert (py' = py) by congruence. subst px' py'.
  clear H1 H2 HA' HP' HX' HY' EA EP.
  cbn [tokenPrice tokenXPrice tokenYPrice unclaimedFees positionValue totalValue
       blockNumber].
  assert (Hblk : sameBlock -> blk1 = blk2).
  { intros [(b & -> & Hb) | <-].
    - apply Z.eqb_neq in Hb. rewrite Hb in HB1, HB2. congruence.
    - congruence. }
  assert (Hliq : sameWindow ->
            displayLiquidity pow10 self1 aX aY price d0 d1
            = displayLiquidity pow10 self2 aX aY price d0 d1).
  { intros [Hlo Hhi]. unfold displayLiquidity. rewrite Hlo, Hhi. reflexivity. }
  split; [reflexivity|]. split; [reflexivity|]. split; [reflexivity|].
  split; [reflexivity|].
  split; [intros Hw; rewrite (Hliq Hw); split; reflexivity|].
  split; [exact Hblk|].
  intros Hw Hb. rewrite (Hliq Hw), (Hblk Hb). reflexivity.
Qed.

Lemma calculateLpValue_inputs_witness :
  exists r1 r2,
    calculateLpValue Examples.sqrtPriceAtTick Examples.pow10 Examples.clientDefault
      (Examples.nftCentered (Some Examples.someFees)) Examples.poolAtPar
      (Some 100) (Some 5) None None = Some r1
    /\ calculateLpValue Examples.sqrtPriceAtTick Examples.pow10 Examples.clientOtherEndpoint
         (Examples.nftCentered (Some Examples.someFees)) Examples.poolAtPar
         (Some 100) (Some 9) None None = Some r2
    /\ r1 = r2.
Proof.
  eexists _, _.
  split; [vm_compute; reflexivity|]. split; [vm_compute; reflexivity|].
  refine (proj2 (proj2 (proj2 (proj2 (proj2 (proj2
            (calculateLpValue_inputs Examples.sqrtPriceAtTick Examples.pow10
               Examples.clientDefault Examples.clientOtherEndpoint
               (Examples.nftCentered (Some Examples.someFees)) Examples.poolAtPar
               (Some 100) (Some 5) (Some 9) None None _ _ _ _)))))) _ _).
  - vm_compute; reflexivity.
  - vm_compute; reflexivity.
  - split; reflexivity.
  - left. exists 100. split; [reflexivity | discriminate].
Defined.

(** C10.  The reported position value is the full-range valuation of the
    display liquidity, [liquidity / sqrt(price) * priceX + liquidity *
    sqrt(price) * priceY], whatever the configured price window: the window
    enters the display liquidity only, and both legs are always valued. *)
Theorem calculateLpValue_positionValue_full_range
    (sqrtPriceAtTick : Z -> Decimal.t) (pow10 : Z -> float) (self : V3LpValue)
    (nftContract : NftContract) (poolContract : PoolContract)
    (blockNumber latestBlock : option Z) (poolXU poolYU : option PoolContract)
    (r : PositionValue) :
  calculateLpValue sqrtPriceAtTick pow10 self nftContract poolContract
    blockNumber latestBlock poolXU poolYU = Some r ->
  exists amountX amountY feeX feeY decimals0 decimals1,
    getPositionAmounts sqrtPriceAtTick nftContract poolContract
      = Some (amountX, amountY, feeX, feeY)
    /\ getTokenPriceFromPool poolContract = Some (tokenPrice r, decimals0, decimals1)
    /\ let liquidity :=
         displayLiquidity pow10 self amountX amountY (tokenPrice r) decimals0 decimals1 in
       positionValue r
       = (liquidity / sqrt (tokenPrice r) * tokenXPrice r
          + liquidity * sqrt (tokenPrice r) * tokenYPrice r)%float.
Proof.
  unfold calculateLpValue. intros Hr.
  destruct (getPositionAmounts sqrtPriceAtTick nftContract poolContract)
    as [[[[amountX amountY] feeX] feeY]|]; [|discriminate].
  destruct (getTokenPriceFromPool poolContract) as [[[price d0] d1]|]; [|discriminate].
  destruct (match poolXU with Some p => _ | None => _ end) as [px|]; [|discriminate].
  destruct (match poolYU with Some p => _ | None => _ end) as [py|]; [|discriminate].
  destruct (match blockNumber with Some b => _ | None => _ end) as [blk|]; [|discriminate].
  injection Hr as <-. cbn [tokenPrice tokenXPrice tokenYPrice positionValue].
  exists amountX, amountY, feeX, feeY, d0, d1. repeat split.
Qed.

Lemma calculateLpValue_positionValue_full_range_witness :
  exists r,
    calculateLpValue Examples.sqrtPriceAtTick Examples.pow10 Examples.clientWindowed
      (Examples.nftCentered None) Examples.poolAtPar (Some 100) None None None = Some r
    /\ exists amountX amountY feeX feeY decimals0 decimals1,
         getPositionAmounts Examples.sqrtPriceAtTick (Examples.nftCentered None)
           Examples.poolAtPar = Some (amountX, amountY, feeX, feeY)
         /\ getTokenPriceFromPool Examples.poolAtPar = Some (tokenPrice r, decimals0, decimals1)
         /\ let liquidity :=
              displayLiquidity Examples.pow10 Examples.clientWindowed amountX amountY (tokenPrice r)
                decimals0 decimals1 in
            positionValue r
            = (liquidity / sqrt (tokenPrice r) * tokenXPrice r
               + liquidity * sqrt (tokenPrice r) * tokenYPrice r)%float.
Proof.
  eexists. split; [vm_compute; reflexivity|].
  eapply (calculateLpValue_positionValue_full_range Examples.sqrtPriceAtTick Examples.pow10
            Examples.clientWindowed (Examples.nftCentered None) Examples.poolAtPar
            (Some 100) None None None).
  vm_compute. reflexivity.
Defined.

(** ** Liquidity-from-amounts against the decomposition *)


Lemma Qle_bool_false (x y : Qc) : (y < x)%Qc -> Qle_bool x y = false.
Proof.
  intros Hlt. destruct (Qle_bool x y) eqn:E; [|reflexivity].
  apply Qle_bool_iff in E. exfalso. exact (Qclt_not_le _ _ Hlt E).
Qed.



(** ** Binary64 facts *)

Module FloatFacts.


Lemma shr_1_m (mrs : shr_record) :
  0 <= shr_m mrs -> shr_m (shr_1 mrs) = shr_m mrs / 2 /\ 0 <= shr_m (shr_1 mrs).
Proof.
  destruct mrs as [m r s]. cbn [shr_m]. intros Hm.
  rewrite <- Z.div2_div.
  destruct m as [|p|p]; [| |lia]; [cbn; lia|].
  destruct p; cbn; lia.
Qed.

Lemma iter_pos_shr_1 (p : positive) :
  forall mrs, 0 <= shr_m mrs ->
    shr_m (iter_pos shr_1 p mrs) = shr_m mrs / 2 ^ Zpos p
    /\ 0 <= shr_m (iter_pos shr_1 p mrs).
Proof.
  induction p as [p IH|p IH|]; intros mrs Hm; cbn [iter_pos].
  - destruct (shr_1_m mrs Hm) as [E1 P1].
    destruct (IH _ P1) as [E2 P2]. destruct (IH _ P2) as [E3 P3].
    split; [|assumption]. rewrite E3, E2, E1.
    assert (0 < 2 ^ Zpos p) by (apply Z.pow_pos_nonneg; lia).
    rewrite !Z.div_div by lia. f_equal.
    rewrite (Pos2Z.inj_xI p).
    replace (2 * Zpos p + 1) with (1 + Zpos p + Zpos p) by lia.
    rewrite !Z.pow_add_r by lia. change (2 ^ 1) with 2. ring.
  - destruct (IH _ Hm) as [E2 P2]. destruct (IH _ P2) as [E3 P3].
    split; [|assumption]. rewrite E3, E2.
    assert (0 < 2 ^ Zpos p) by (apply Z.pow_pos_nonneg; lia).
    rewrite !Z.div_div by lia. f_equal.
    rewrite (Pos2Z.inj_xO p). replace (2 * Zpos p) with (Zpos p + Zpos p) by lia.
    rewrite Z.pow_add_r by lia. reflexivity.
  - destruct (shr_1_m mrs Hm) as [E1 P1]. split; [|assumption].
    rewrite E1. reflexivity.
Qed.

Lemma shr_record_of_loc_m (m : Z) (l : location) : shr_m (shr_record_of_loc m l) = m.
Proof. destruct l as [|[]]; reflexivity. Qed.


Lemma round_nearest_even_ge (m : Z) (l : location) : m <= round_nearest_even m l.
Proof.
  destruct l as [|[]]; cbn; try lia. destruct (Z.even m); lia.
Qed.










End FloatFacts.

(** ** Divisions of liquidity-from-amounts *)

Lemma calculateV3Liquidity_divisors_sound
    {T : Type} `{Arith T} `{Ordered T} (amountX amountY c lo hi : T) :
  calculateV3Liquidity amountX amountY c lo hi =
    match calculateV3Liquidity_divisors c lo hi with
    | [d] => if aleb c lo then (amountX * (hi * lo) / d)%arith else (amountY / d)%arith
    | [d1; d2] => amin (amountX * (hi * c) / d1)%arith (amountY / d2)%arith
    | _ => azero
    end.
Proof.
  unfold calculateV3Liquidity, calculateV3Liquidity_divisors.
  destruct (aleb c lo); [reflexivity|]. destruct (aleb hi c); reflexivity.
Qed.

Lemma eqb_zero (x : float) : (x =? 0)%float = JsNumber.specIsZero (Prim2SF x).
Proof.
  rewrite FloatAxioms.eqb_spec. change (Prim2SF 0) with (S754_zero false).
  destruct (Prim2SF x) as [s|s| |s m e]; try reflexivity; destruct s; reflexivity.
Qed.








(** ** Failure of the fee simulation *)

(** The fee value of two zero fees is a zero, for finite USD prices and
    an engine whose [10 ** decimals] is neither zero nor NaN. *)
Lemma feeValue_zero (pow10 : Z -> float) (px py : float) (d0 d1 : Z) :
  JsNumber.isFinite px = true -> JsNumber.isFinite py = true ->
  zeroOrNaN (pow10 d0) = false -> zeroOrNaN (pow10 d1) = false ->
  JsNumber.specIsZero (Prim2SF (feeValue pow10 PrimFloat.zero PrimFloat.zero px py d0 d1))
  = true.
Proof.
  unfold JsNumber.isFinite, zeroOrNaN, feeValue. intros Hx Hy Hd0 Hd1.
  rewrite add_spec, !div_spec, !mul_spec.
  change (Prim2SF PrimFloat.zero) with (S754_zero false).
  destruct (Prim2SF (pow10 d0)) as [s0|s0| |s0 m0 e0]; try discriminate Hd0;
    destruct (Prim2SF (pow10 d1)) as [s1|s1| |s1 m1 e1]; try discriminate Hd1;
    destruct (Prim2SF px) as [sx|sx| |sx mx ex]; try discriminate Hx;
    destruct (Prim2SF py) as [sy|sy| |sy my ey]; try discriminate Hy;
    destruct s0, s1, sx, sy; reflexivity.
Qed.

Lemma SFcompare_refl (x : spec_float) : x <> S754_nan -> SFcompare x x = Some Eq.
Proof.
  destruct x as [s|s| |s m e]; cbn; intros Hn; try reflexivity; try congruence.
  - destruct s; reflexivity.
  - change (Pos.compare_cont Eq m m) with (m ?= m)%positive.
    rewrite Z.compare_refl, Pos.compare_refl. destruct s; reflexivity.
Qed.

(** Adding a zero leaves a number the same (up to the sign of zero). *)
Lemma add_zero_sameValue (x f : float) :
  JsNumber.specIsZero (Prim2SF f) = true -> JsNumber.sameValueZero (x + f) x = true.
Proof.
  unfold JsNumber.sameValueZero, JsNumber.isNaN. intros Hf.
  rewrite FloatAxioms.eqb_spec, add_spec. unfold SFeqb.
  destruct (Prim2SF f) as [sf| | |]; try discriminate Hf.
  destruct (Prim2SF x) as [s|s| |s m e] eqn:Ex.
  - destruct s, sf; reflexivity.
  - destruct s; reflexivity.
  - reflexivity.
  - change (SF64add (S754_finite s m e) (S754_zero sf)) with (S754_finite s m e).
    rewrite SFcompare_refl by discriminate. reflexivity.
Qed.

Lemma eqb_NaN (x y : float) : JsNumber.isNaN y = true -> (x =? y)%float = false.
Proof.
  unfold JsNumber.isNaN. rewrite FloatAxioms.eqb_spec. unfold SFeqb.
  destruct (Prim2SF y); intros H; try discriminate H.
  destruct (Prim2SF x) as [[]|[]| |[] m e]; reflexivity.
Qed.

Lemma add_NaN (x y : float) : JsNumber.isNaN x = true -> JsNumber.isNaN (x + y) = true.
Proof.
  unfold JsNumber.isNaN. rewrite add_spec.
  destruct (Prim2SF x); intros H; try discriminate H. reflexivity.
Qed.

(** The fee simulation decides the two fee numbers and nothing else of what
    [getPositionAmounts] returns. *)
Lemma getPositionAmounts_fees
    (sqrtPriceAtTick : Z -> Decimal.t) (position : option Position)
    (fees fees' : option Collect.t) (pool : PoolContract)
    (amount0 amount1 fee0 fee1 : float) :
  getPositionAmounts sqrtPriceAtTick
    {| positions := position; collect_staticCall := fees |} pool
  = Some (amount0, amount1, fee0, fee1) ->
  getPositionAmounts sqrtPriceAtTick
    {| positions := position; collect_staticCall := fees' |} pool
  = Some (amount0, amount1,
          match fees' with
          | Some f => JsNumber.ofZ (Collect.amount0 f)
          | None => PrimFloat.zero
          end,
          match fees' with
          | Some f => JsNumber.ofZ (Collect.amount1 f)
          | None => PrimFloat.zero
          end).
Proof.
  unfold getPositionAmounts. cbn [positions collect_staticCall].
  destruct position as [pos|]; [|discriminate].
  destruct (slot0 pool) as [s0|]; [|discriminate].
  destruct (decomposeLiquidity _ _ _ _ _ _ _) as [a0 a1].
  intros H.
  assert (E : JsNumber.ofDecimal a0 = amount0 /\ JsNumber.ofDecimal a1 = amount1)
    by (destruct fees; split; congruence).
  destruct E as [<- <-]. destruct fees'; reflexivity.
Qed.

(** C5, as stated, fails.  With the fee simulation failing on a pool that
    was never initialised (square-root price 0) and the default price
    window, the valuation returns, the position value is NaN, and
    [totalValue == positionValue] is false. *)
Lemma fee_simulation_failure_total_not_equal :
  exists r,
    calculateLpValue Examples.sqrtPriceAtTick Examples.pow10 Examples.clientDefault
      (Examples.nftCentered None) Examples.poolUninitialised (Some 100) None None None
    = Some r
    /\ (unclaimedFees r =? 0)%float = true
    /\ JsNumber.isNaN (positionValue r) = true
    /\ (totalValue r =? positionValue r)%float = false.
Proof.
  eexists. split; [vm_compute; reflexivity|].
  split; [vm_compute; reflexivity|].
  split; vm_compute; reflexivity.
Qed.

(** C5, amended.  Whenever the valuation returns a result with a successful
    fee simulation, it also returns one when the simulation fails, other
    inputs unchanged, and that result is the one of a successful simulation
    that reports both fee amounts as zero.  The decomposed amounts, the
    prices, the block number and the position value are those of the success
    case, the position value being the full-range valuation of the display
    liquidity of these amounts, and the total is the position value plus the
    fee value.  For finite USD prices and an engine whose [10 ** decimals]
    is neither zero nor NaN, the fee value is [== 0] and the total is the
    same number as the position value: [==] holds between them unless the
    position value is NaN, in which case the total is NaN as well and [==]
    is false. *)
Theorem fee_simulation_failure_degrades
    (sqrtPriceAtTick : Z -> Decimal.t) (pow10 : Z -> float) (self : V3LpValue)
    (position : option Position) (fees : Collect.t) (poolContract : PoolContract)
    (blockArg latestBlock : option Z) (poolXU poolYU : option PoolContract)
    (r' : PositionValue) :
  calculateLpValue sqrtPriceAtTick pow10 self
    {| positions := position; collect_staticCall := Some fees |}
    poolContract blockArg latestBlock poolXU poolYU = Some r' ->
  exists r amount0 amount1 decimals0 decimals1,
    calculateLpValue sqrtPriceAtTick pow10 self
      {| positions := position; collect_staticCall := None |}
      poolContract blockArg latestBlock poolXU poolYU = Some r
    /\ calculateLpValue sqrtPriceAtTick pow10 self
         {| positions := position;
            collect_staticCall := Some {| Collect.amount0 := 0; Collect.amount1 := 0 |} |}
         poolContract blockArg latestBlock poolXU poolYU = Some r
    /\ getPositionAmounts sqrtPriceAtTick
         {| positions := position; collect_staticCall := None |} poolContract
       = Some (amount0, amount1, PrimFloat.zero, PrimFloat.zero)
    /\ getPositionAmounts sqrtPriceAtTick
         {| positions := position; collect_staticCall := Some fees |} poolContract
       = Some (amount0, amount1,
               JsNumber.ofZ (Collect.amount0 fees), JsNumber.ofZ (Collect.amount1 fees))
    /\ getTokenPriceFromPool poolContract = Some (tokenPrice r, decimals0, decimals1)
    /\ tokenPrice r = tokenPrice r'
    /\ tokenXPrice r = tokenXPrice r'
    /\ tokenYPrice r = tokenYPrice r'
    /\ blockNumber r = blockNumber r'
    /\ positionValue r = positionValue r'
    /\ (let liquidity :=
          displayLiquidity pow10 self amount0 amount1 (tokenPrice r) decimals0 decimals1 in
        positionValue r
        = (liquidity / sqrt (tokenPrice r) * tokenXPrice r
           + liquidity * sqrt (tokenPrice r) * tokenYPrice r)%float)
    /\ unclaimedFees r
       = (0 * tokenXPrice r / pow10 decimals0 + 0 * tokenYPrice r / pow10 decimals1)%float
    /\ totalValue r = (positionValue r + unclaimedFees r)%float
    /\ (JsNumber.isFinite (tokenXPrice r) = true ->
        JsNumber.isFinite (tokenYPrice r) = true ->
        zeroOrNaN (pow10 decimals0) = false ->
        zeroOrNaN (pow10 decimals1) = false ->
        (unclaimedFees r =? 0)%float = true
        /\ JsNumber.sameValueZero (totalValue r) (positionValue r) = true
        /\ (JsNumber.isNaN (positionValue r) = false ->
            (totalValue r =? positionValue r)%float = true))
    /\ (JsNumber.isNaN (positionValue r) = true ->
        JsNumber.isNaN (totalValue r) = true
        /\ (totalValue r =? positionValue r)%float = false).
Proof.
  intros Hok.
  destruct (calculateLpValue_returns _ _ _ _ _ _ _ _ _ _ Hok)
    as (aX & aY & fX & fY & price & d0 & d1 & px & py & blk
        & HA & HP & HX & HY & HB & ->).
  pose proof (getPositionAmounts_fees _ _ _ None _ _ _ _ _ HA) as HA0.
  pose proof (getPositionAmounts_fees _ _ _
                (Some {| Collect.amount0 := 0; Collect.amount1 := 0 |}) _ _ _ _ _ HA)
    as HAz.
  pose proof (getPositionAmounts_fees _ _ _ (Some fees) _ _ _ _ _ HA) as HAf.
  cbv beta iota in HA0, HAz, HAf. cbn [Collect.amount0 Collect.amount1] in HAz.
  change (JsNumber.ofZ 0) with PrimFloat.zero in HAz.
  eexists _, aX, aY, d0, d1.
  split.
  { unfold calculateLpValue. rewrite HA0, HP, HX, HY, HB. reflexivity. }
  split.
  { unfold calculateLpValue. rewrite HAz, HP, HX, HY, HB. reflexivity. }
  cbn [tokenPrice tokenXPrice tokenYPrice blockNumber positionValue unclaimedFees
       totalValue].
  split; [exact HA0|]. split; [exact HAf|]. split; [exact HP|].
  do 5 (split; [reflexivity|]).
  split; [reflexivity|].
  split; [reflexivity|].
  split; [reflexivity|].
  split.
  - intros Hpx Hpy Hd0 Hd1.
    pose proof (feeValue_zero pow10 px py d0 d1 Hpx Hpy Hd0 Hd1) as Hfee.
    pose proof (add_zero_sameValue
                  (calculatePositionValue
                     (displayLiquidity pow10 self aX aY price d0 d1) price px py)
                  _ Hfee) as Hsame.
    split; [rewrite eqb_zero; exact Hfee|].
    split; [exact Hsame|].
    intros Hnan. unfold JsNumber.sameValueZero in Hsame.
    rewrite Hnan, andb_false_r, orb_false_r in Hsame. exact Hsame.
  - intros Hnan. split; [apply add_NaN; exact Hnan | apply eqb_NaN; exact Hnan].
Qed.

Lemma fee_simulation_failure_degrades_witness :
  exists r,
    calculateLpValue Examples.sqrtPriceAtTick Examples.pow10 Examples.clientDefault
      (Examples.nftCentered None) Examples.poolAtPar (Some 100) None None None = Some r
    /\ calculateLpValue Examples.sqrtPriceAtTick Examples.pow10 Examples.clientDefault
         (Examples.nftCentered (Some {| Collect.amount0 := 0; Collect.amount1 := 0 |}))
         Examples.poolAtPar (Some 100) None None None = Some r
    /\ totalValue r = (positionValue r + unclaimedFees r)%float.
Proof.
  edestruct (fee_simulation_failure_degrades Examples.sqrtPriceAtTick Examples.pow10
               Examples.clientDefault
               (Some {| liquidity := 10 ^ 18; tickLower := -2; tickUpper := 2 |})
               Examples.someFees Examples.poolAtPar (Some 100) None None None)
    as (r & a0 & a1 & d0 & d1 & Hr & Hz & _ & _ & _ & _ & _ & _ & _ & _ & _ & _ & Ht & _).
  - vm_compute. reflexivity.
  - exists r. split; [exact Hr | split; [exact Hz | exact Ht]].
Defined.

(** ** Which arithmetic computes what *)





(** * Further properties of the valuation *)

(** ** Which reads the valuation needs *)

Lemma getPositionAmounts_succeeds
    (sqrtPriceAtTick : Z -> Decimal.t) (nft : NftContract) (pool : PoolContract) :
  getPositionAmounts sqrtPriceAtTick nft pool <> None
  <-> positions nft <> None /\ slot0 pool <> None.
Proof.
  unfold getPositionAmounts.
  destruct (positions nft) as [pos|]; [|split; [congruence | intros [? _]; congruence]].
  destruct (slot0 pool) as [s0|]; [|split; [congruence | intros [_ ?]; congruence]].
  destruct (decomposeLiquidity _ _ _ _ _ _ _) as [a0 a1].
  destruct (collect_staticCall nft); split; intros; try split; congruence.
Qed.

Lemma getTokenPriceFromPool_succeeds (pool : PoolContract) :
  getTokenPriceFromPool pool <> None <-> poolReadable pool.
Proof.
  unfold getTokenPriceFromPool, poolReadable.
  destruct (token0 pool), (token1 pool), (decimals0 pool), (decimals1 pool), (slot0 pool);
    split; intros H; try (repeat split; congruence); try congruence;
    destruct H as (? & ? & ? & ? & ?); congruence.
Qed.

(** X1.  The valuation is rejected exactly when a read it needs is rejected:
    the position, the pool's two token addresses, the decimals of these
    tokens or the pool's slot0, one of these five reads on a USD pool that
    was given, or the current block when no (or a zero) block number was
    given.  The fee simulation, the price window and the values read play no
    part. *)
Theorem calculateLpValue_succeeds
    (sqrtPriceAtTick : Z -> Decimal.t) (pow10 : Z -> float) (self : V3LpValue)
    (nft : NftContract) (pool : PoolContract)
    (blockArg latestBlock : option Z) (poolXU poolYU : option PoolContract) :
  calculateLpValue sqrtPriceAtTick pow10 self nft pool blockArg latestBlock poolXU poolYU <> None
  <-> positions nft <> None
      /\ poolReadable pool
      /\ (forall p, poolXU = Some p -> poolReadable p)
      /\ (forall p, poolYU = Some p -> poolReadable p)
      /\ (blockArg = None \/ blockArg = Some 0 -> latestBlock <> None).
Proof.
  pose proof (getPositionAmounts_succeeds sqrtPriceAtTick nft pool) as HA.
  pose proof (getTokenPriceFromPool_succeeds pool) as HP.
  assert (HX : forall price : float,
            match poolXU with
            | Some p => '(pr, _, _) <- getTokenPriceFromPool p ;; Some pr
            | None => Some price
            end <> None <-> (forall p, poolXU = Some p -> poolReadable p)).
  { intros price. destruct poolXU as [p|].
    - pose proof (getTokenPriceFromPool_succeeds p) as Hp.
      destruct (getTokenPriceFromPool p) as [[[pr ?] ?]|]; split; intros H.
      + intros q [= <-]. apply Hp. congruence.
      + congruence.
      + congruence.
      + exfalso. apply (proj2 Hp); [apply H; reflexivity | reflexivity].
    - split; [intros _ q; discriminate | congruence]. }
  assert (HY : match poolYU with
               | Some p => '(pr, _, _) <- getTokenPriceFromPool p ;; Some pr
               | None => Some PrimFloat.one
               end <> None <-> (forall p, poolYU = Some p -> poolReadable p)).
  { destruct poolYU as [p|].
    - pose proof (getTokenPriceFromPool_succeeds p) as Hp.
      destruct (getTokenPriceFromPool p) as [[[pr ?] ?]|]; split; intros H.
      + intros q [= <-]. apply Hp. congruence.
      + congruence.
      + congruence.
      + exfalso. apply (proj2 Hp); [apply H; reflexivity | reflexivity].
    - split; [intros _ q; discriminate | congruence]. }
  assert (HB : match blockArg with
               | Some b => if b =? 0 then latestBlock else Some b
               | None => latestBlock
               end <> None
               <-> (blockArg = None \/ blockArg = Some 0 -> latestBlock <> None)).
  { destruct blockArg as [b|].
    - destruct (b =? 0) eqn:Eb.
      + apply Z.eqb_eq in Eb. subst b. split; [intros H _; exact H | intros H; apply H; auto].
      + apply Z.eqb_neq in Eb. split; [|congruence].
        intros _ [H | H]; congruence.
    - split; [intros H _; exact H | intros H; apply H; auto]. }
  unfold calculateLpValue.
  destruct (getPositionAmounts sqrtPriceAtTick nft pool) as [[[[aX aY] fX] fY]|].
  2:{ split; [congruence|]. intros (H1 & (_ & _ & _ & _ & H2) & _). exfalso.
      apply (proj2 HA); [split; assumption | reflexivity]. }
  destruct (getTokenPriceFromPool pool) as [[[price d0] d1]|].
  2:{ split; [congruence|]. intros (_ & H2 & _). exfalso.
      apply (proj2 HP); [assumption | reflexivity]. }
  specialize (HX price).
  destruct (match poolXU with Some p => _ | None => _ end) as [px|].
  2:{ split; [congruence|]. intros (_ & _ & H3 & _). exfalso.
      apply (proj2 HX); [assumption | reflexivity]. }
  destruct (match poolYU with Some p => _ | None => _ end) as [py|].
  2:{ split; [congruence|]. intros (_ & _ & _ & H4 & _). exfalso.
      apply (proj2 HY); [assumption | reflexivity]. }
  destruct (match blockArg with Some b => _ | None => _ end) as [blk|].
  2:{ split; [congruence|]. intros (_ & _ & _ & _ & H5). exfalso.
      apply (proj2 HB); [assumption | reflexivity]. }
  split; [|congruence]. intros _.
  destruct (proj1 HA ltac:(congruence)) as [H1 _].
  exact (conj H1 (conj (proj1 HP ltac:(congruence))
           (conj (proj1 HX ltac:(congruence))
              (conj (proj1 HY ltac:(congruence)) (proj1 HB ltac:(congruence)))))).
Qed.

(** X2.  A returned result reports the block number that was given when it
    is not zero, without reading the current block; for no block number, and
    for block number 0, it reports the provider's current block. *)
Theorem calculateLpValue_blockNumber
    (sqrtPriceAtTick : Z -> Decimal.t) (pow10 : Z -> float) (self : V3LpValue)
    (nft : NftContract) (pool : PoolContract)
    (blockArg latestBlock : option Z) (poolXU poolYU : option PoolContract)
    (r : PositionValue) :
  calculateLpValue sqrtPriceAtTick pow10 self nft pool blockArg latestBlock poolXU poolYU = Some r ->
  (forall b, blockArg = Some b -> b <> 0 -> blockNumber r = b)
  /\ (blockArg = None \/ blockArg = Some 0 -> latestBlock = Some (blockNumber r)).
Proof.
  unfold calculateLpValue. intros Hr.
  destruct (getPositionAmounts sqrtPriceAtTick nft pool) as [[[[aX aY] fX] fY]|];
    [|discriminate Hr].
  destruct (getTokenPriceFromPool pool) as [[[price d0] d1]|]; [|discriminate Hr].
  destruct (match poolXU with Some p => _ | None => _ end) as [px|]; [|discriminate Hr].
  destruct (match poolYU with Some p => _ | None => _ end) as [py|]; [|discriminate Hr].
  destruct (match blockArg with Some b => _ | None => _ end) as [blk|] eqn:Eb;
    [|discriminate Hr].
  injection Hr as <-. cbn [blockNumber].
  split.
  - intros b -> Hb. apply Z.eqb_neq in Hb. rewrite Hb in Eb. cbn. congruence.
  - intros [-> | ->]; cbn in *; congruence.
Qed.

(** ** Shapes of decimal results *)

Module DecimalShape.
Import Decimal.

Lemma normalise_shape (neg : bool) (c e : Z) :
  exists c' e', normalise neg c e = Fin neg c' e' /\ 0 <= c'.
Proof.
  unfold normalise. destruct (c <=? 0) eqn:E; [exists 0, 0; split; [reflexivity | lia]|].
  apply Z.leb_gt in E.
  assert (Hlt : c < 2 ^ (Z.of_nat (Z.to_nat (Z.log2 c)) + 1)).
  { rewrite Z2Nat.id by apply Z.log2_nonneg.
    replace (Z.log2 c + 1) with (Z.succ (Z.log2 c)) by lia.
    apply Z.log2_spec; assumption. }
  destruct (DecimalFacts.strip_fuel_spec _ c e E Hlt) as (j & _ & _ & _ & Hpos & _).
  destruct (strip_fuel (Z.to_nat (Z.log2 c)) c e) as [c' e']. cbn [fst] in Hpos.
  exists c', e'. split; [reflexivity | lia].
Qed.

Lemma finalise_shape (neg : bool) (c e : Z) :
  exists c' e', finalise neg c e = Fin neg c' e' /\ 0 <= c'.
Proof.
  unfold finalise. destruct (digits c - precision <=? 0); apply normalise_shape.
Qed.

Lemma finalise_nonNegative (c e : Z) : nonNegativeDecimal (finalise false c e).
Proof.
  destruct (finalise_shape false c e) as (c' & e' & -> & H). exact H.
Qed.

Lemma ofZ_nonNegative (n : Z) : 0 <= n -> nonNegativeDecimal (ofZ n).
Proof.
  intros Hn. unfold ofZ.
  replace (n <? 0) with false by (symmetry; apply Z.ltb_ge; assumption).
  destruct (normalise_shape false (Z.abs n) 0) as (c' & e' & -> & H). exact H.
Qed.

Lemma finalise_zero (neg : bool) (e : Z) : finalise neg 0 e = Fin neg 0 0.
Proof. reflexivity. Qed.

Lemma sub_self (s : bool) (c e : Z) : sub (Fin s c e) (Fin s c e) = Fin false 0 0.
Proof.
  cbn [sub]. destruct (c =? 0); cbn [andb]; [destruct s; reflexivity|].
  rewrite Z.sub_diag. reflexivity.
Qed.

Lemma mul_zero_r (L : t) : nonNegativeDecimal L -> mul L (Fin false 0 0) = Fin false 0 0.
Proof.
  destruct L as [[] c e| |]; cbn; try contradiction. intros _.
  rewrite Z.mul_0_r. reflexivity.
Qed.

Lemma inv_finite (s : bool) (c e : Z) :
  c <> 0 -> exists s' c' e', inv (Fin s c e) = Fin s' c' e'.
Proof.
  intros Hc. unfold inv. change (ofZ 1) with (Fin false 1 0). cbn [div].
  destruct (c =? 0) eqn:E; [apply Z.eqb_eq in E; contradiction|].
  destruct (finalise_shape (xorb false s) (1 * 10 ^ Z.max 0 (precision + 1 + digits c - digits 1) / c)
              (0 - e - Z.max 0 (precision + 1 + digits c - digits 1)))
    as (c' & e' & -> & _).
  eauto.
Qed.

End DecimalShape.

(** ** The decomposition at the bounds and out of range *)

(** X3.  In the program's decimal arithmetic the within-range formulas
    agree with the single-asset ones at the bounds: for a non-negative
    liquidity, a current square-root price equal to a finite lower bound
    gives the below-range pair, and one equal to a finite non-zero upper
    bound gives the above-range pair.  The tie-break on ticks therefore does
    not change the reported amounts at an exact tie of the prices. *)
Theorem decomposeLiquidity_agrees_at_bounds
    (currentTick tickLower tickUpper : Z) (L other : Decimal.t)
    (s : bool) (c e : Z) :
  tickLower <= currentTick <= tickUpper ->
  nonNegativeDecimal L ->
  let bound := Decimal.Fin s c e in
  decomposeLiquidity currentTick tickLower tickUpper L bound bound other
  = ((L * (ainv bound - ainv other))%arith, azero)
  /\ (c <> 0 ->
      decomposeLiquidity currentTick tickLower tickUpper L bound other bound
      = (azero, (L * (bound - other))%arith)).
Proof.
  intros Hticks HL bound. unfold decomposeLiquidity.
  replace (currentTick <? tickLower) with false by (symmetry; apply Z.ltb_ge; lia).
  replace (currentTick >? tickUpper) with false
    by (symmetry; rewrite Z.gtb_ltb; apply Z.ltb_ge; lia).
  cbn [asub amul ainv azero Arith_Decimal]. change (Decimal.ofZ 0) with (Decimal.Fin false 0 0).
  split.
  - unfold bound. rewrite DecimalShape.sub_self, DecimalShape.mul_zero_r by assumption.
    reflexivity.
  - intros Hc. unfold bound.
    destruct (DecimalShape.inv_finite s c e Hc) as (s' & c' & e' & ->).
    rewrite DecimalShape.sub_self, DecimalShape.mul_zero_r by assumption.
    reflexivity.
Qed.

Lemma decomposeLiquidity_agrees_at_bounds_witness :
  let L := Decimal.ofZ (10 ^ 18) in
  let lo := Examples.sqrtPriceAtTick (-2) in
  let hi := Decimal.Fin false 10001 (-4) in
  decomposeLiquidity 2 (-2) 2 L hi lo hi = (azero, (L * (hi - lo))%arith).
Proof.
  intros L lo hi.
  apply (proj2 (decomposeLiquidity_agrees_at_bounds 2 (-2) 2 L lo false 10001 (-4)
                  ltac:(lia) ltac:(vm_compute; discriminate))).
  discriminate.
Defined.

(** X4.  Out of the position's tick range the reported amounts do not
    depend on the pool's square-root price, and the asset that is not held
    is reported as exactly 0: amount1 below the range, amount0 above it. *)
Theorem getPositionAmounts_out_of_range
    (sqrtPriceAtTick : Z -> Decimal.t) (position : Position)
    (fees : option Collect.t) (currentTick x96 x96' : Z) (d0 d1 d0' d1' : option Z)
    (t0 t1 t0' t1' : option string) :
  currentTick < tickLower position
  \/ (tickLower position <= currentTick /\ tickUpper position < currentTick) ->
  let nft := {| positions := Some position; collect_staticCall := fees |} in
  let pool := {| token0 := t0; token1 := t1;
                 slot0 := Some {| sqrtPriceX96 := x96; tick := currentTick |};
                 decimals0 := d0; decimals1 := d1 |} in
  let pool' := {| token0 := t0'; token1 := t1';
                  slot0 := Some {| sqrtPriceX96 := x96'; tick := currentTick |};
                  decimals0 := d0'; decimals1 := d1' |} in
  getPositionAmounts sqrtPriceAtTick nft pool = getPositionAmounts sqrtPriceAtTick nft pool'
  /\ exists amount0 amount1 fee0 fee1,
       getPositionAmounts sqrtPriceAtTick nft pool = Some (amount0, amount1, fee0, fee1)
       /\ (currentTick < tickLower position -> amount1 = PrimFloat.zero)
       /\ (tickUpper position < currentTick -> tickLower position <= currentTick ->
           amount0 = PrimFloat.zero).
Proof.
  intros Hout nft pool pool'.
  unfold getPositionAmounts, decomposeLiquidity.
  cbn [positions collect_staticCall slot0 tick sqrtPriceX96 nft pool pool'].
  destruct Hout as [Hlt | [Hge Hgt]].
  - replace (currentTick <? tickLower position) with true by (symmetry; apply Z.ltb_lt; lia).
    split; [reflexivity|].
    destruct fees; eexists _, _, _, _; (split; [reflexivity|]); split;
      intros; try reflexivity; lia.
  - replace (currentTick <? tickLower position) with false by (symmetry; apply Z.ltb_ge; lia).
    replace (currentTick >? tickUpper position) with true by (symmetry; apply Z.gtb_lt; lia).
    split; [reflexivity|].
    destruct fees; eexists _, _, _, _; (split; [reflexivity|]); split;
      intros; try reflexivity; lia.
Qed.

Lemma getPositionAmounts_out_of_range_witness :
  getPositionAmounts Examples.sqrtPriceAtTick
    {| positions := Some {| liquidity := 10 ^ 18; tickLower := 0; tickUpper := 2 |};
       collect_staticCall := None |}
    {| token0 := Some "0xA0"%string; token1 := Some "0xA1"%string;
       slot0 := Some {| sqrtPriceX96 := 2 ^ 95; tick := -2 |};
       decimals0 := Some 18; decimals1 := Some 6 |}
  = getPositionAmounts Examples.sqrtPriceAtTick
    {| positions := Some {| liquidity := 10 ^ 18; tickLower := 0; tickUpper := 2 |};
       collect_staticCall := None |}
    {| token0 := Some "0xA0"%string; token1 := Some "0xA1"%string;
       slot0 := Some {| sqrtPriceX96 := 3 ^ 50; tick := -2 |};
       decimals0 := Some 18; decimals1 := Some 6 |}.
Proof.
  apply (getPositionAmounts_out_of_range Examples.sqrtPriceAtTick
           {| liquidity := 10 ^ 18; tickLower := 0; tickUpper := 2 |} None (-2)
           (2 ^ 95) (3 ^ 50) (Some 18) (Some 6) (Some 18) (Some 6)
           (Some "0xA0"%string) (Some "0xA1"%string)
           (Some "0xA0"%string) (Some "0xA1"%string)).
  left. cbn. lia.
Defined.

(** ** Composition of decimal adjustments *)

Lemma adjustForDecimals_shift (p : Decimal.t) (a b : Z) :
  Decimal.atPrecision p ->
  adjustForDecimals p a b =
    match p with
    | Decimal.Fin s c e => if c =? 0 then p else Decimal.Fin s c (e + (a - b))
    | _ => p
    end.
Proof.
  intros Hp. rewrite adjustForDecimals_cases. unfold Decimal.tenPow.
  destruct (b <=? a) eqn:E; Zbool.
  - rewrite DecimalFacts.mul_pow10 by (assumption || lia). reflexivity.
  - rewrite DecimalFacts.div_pow10 by (assumption || lia).
    destruct p as [s c e| |]; try reflexivity.
    destruct (c =? 0); [reflexivity | f_equal; lia].
Qed.

(** X5.  Decimal adjustments of the pool price compose: adjusting with
    (a, b) and then with (c, d) is adjusting once with (a + c, b + d), and
    adjusting with equal decimals leaves the price as it is. *)
Theorem adjustForDecimals_composes (sqrtPrice : Decimal.t) (a b c d : Z) :
  let price := Decimal.mul sqrtPrice sqrtPrice in
  adjustForDecimals (adjustForDecimals price a b) c d
  = adjustForDecimals price (a + c) (b + d)
  /\ adjustForDecimals price a a = price.
Proof.
  intros price.
  assert (Hp : Decimal.atPrecision price) by apply DecimalFacts.mul_atPrecision.
  split.
  - rewrite (adjustForDecimals_shift (adjustForDecimals price a b))
      by apply adjustForDecimals_atPrecision.
    rewrite !(adjustForDecimals_shift price) by assumption.
    destruct price as [s m e| |]; try reflexivity.
    destruct (m =? 0) eqn:E; rewrite ?E; [reflexivity | f_equal; lia].
  - rewrite adjustForDecimals_shift by assumption.
    destruct price as [s m e| |]; try reflexivity.
    destruct (m =? 0); [reflexivity | f_equal; lia].
Qed.

(** ** The two algorithms in exact arithmetic *)

Lemma Qle_bool_true (x y : Qc) : (x <= y)%Qc -> Qle_bool x y = true.
Proof. intros H. apply Qle_bool_iff. exact H. Qed.

Lemma Qc_pos_neq (x : Qc) : (0 < x)%Qc -> x <> 0%Qc.
Proof. intros H. apply not_eq_sym, Qclt_not_eq. exact H. Qed.

Lemma Qc_sub_neq (x y : Qc) : (x < y)%Qc -> (y - x)%Qc <> 0%Qc.
Proof.
  intros H E. apply (Qclt_not_eq _ _ H). symmetry.
  replace y with ((y - x) + x)%Qc by ring. rewrite E. ring.
Qed.

(** X6.  In exact arithmetic the round trip of C6 also holds out of range:
    below the range (current tick below [tickLower], [c <= lo]) and above it
    (current tick above [tickUpper], [c >= hi]), liquidity-from-amounts
    applied to the decomposed amounts returns the liquidity, for bounds
    [0 < lo < hi]. *)
Theorem liquidity_roundtrip_out_of_range
    (currentTick tickLower tickUpper : Z) (L c lo hi : Qc) :
  (0 < lo)%Qc -> (lo < hi)%Qc ->
  (currentTick < tickLower /\ (c <= lo)%Qc)
  \/ (tickLower <= currentTick /\ tickUpper < currentTick /\ (hi <= c)%Qc) ->
  calculateV3Liquidity
    (fst (decomposeLiquidity currentTick tickLower tickUpper L c lo hi))
    (snd (decomposeLiquidity currentTick tickLower tickUpper L c lo hi))
    c lo hi = L.
Proof.
  intros Hlo Hhi Hcase.
  assert (Hlo0 : lo <> 0%Qc) by (apply Qc_pos_neq; assumption).
  assert (Hhi0 : hi <> 0%Qc) by (apply Qc_pos_neq; exact (Qclt_trans _ _ _ Hlo Hhi)).
  assert (Hd : (hi - lo)%Qc <> 0%Qc) by (apply Qc_sub_neq; assumption).
  unfold decomposeLiquidity, calculateV3Liquidity.
  cbn [aleb Ordered_Qc]. destruct Hcase as [[Ht Hc] | (Ht1 & Ht2 & Hc)].
  - replace (currentTick <? tickLower) with true by (symmetry; apply Z.ltb_lt; lia).
    rewrite (Qle_bool_true c lo Hc).
    cbn [fst snd asub amul adiv ainv Arith_Qc]. field. auto.
  - replace (currentTick <? tickLower) with false by (symmetry; apply Z.ltb_ge; lia).
    replace (currentTick >? tickUpper) with true by (symmetry; apply Z.gtb_lt; lia).
    rewrite (Qle_bool_false c lo (Qclt_le_trans _ _ _ Hhi Hc)), (Qle_bool_true hi c Hc).
    cbn [fst snd asub amul adiv ainv azero Arith_Qc]. field. auto.
Qed.

Lemma liquidity_roundtrip_out_of_range_witness :
  let L := Q2Qc 1000000 in
  let c := Q2Qc (8 # 10) in
  let lo := Q2Qc (9 # 10) in
  let hi := Q2Qc (11 # 10) in
  calculateV3Liquidity
    (fst (decomposeLiquidity (-3) (-2) 2 L c lo hi))
    (snd (decomposeLiquidity (-3) (-2) 2 L c lo hi))
    c lo hi = L.
Proof.
  intros L c lo hi.
  apply (liquidity_roundtrip_out_of_range (-3) (-2) 2 L c lo hi);
    [reflexivity | reflexivity | left; split; [lia | discriminate]].
Defined.

Lemma Qc_mul_nonneg (x y : Qc) : (0 <= x)%Qc -> (0 <= y)%Qc -> (0 <= x * y)%Qc.
Proof.
  intros Hx Hy. replace 0%Qc with (0 * y)%Qc by ring.
  apply Qcmult_le_compat_r; assumption.
Qed.

Lemma Qc_inv_pos (x : Qc) : (0 < x)%Qc -> (0 < / x)%Qc.
Proof.
  intros Hx. destruct (Qclt_le_dec 0 (/ x)) as [H | H]; [exact H | exfalso].
  assert (Hmul : (/ x * x <= 0 * x)%Qc)
    by (apply Qcmult_le_compat_r; [exact H | apply Qclt_le_weak; exact Hx]).
  rewrite Qcmult_inv_l in Hmul by (apply Qc_pos_neq; exact Hx).
  rewrite Qcmult_0_l in Hmul. revert Hmul. apply Qclt_not_le. reflexivity.
Qed.

Lemma Qc_sub_nonneg (x y : Qc) : (x <= y)%Qc -> (0 <= y - x)%Qc.
Proof. intros H. apply (proj1 (Qcle_minus_iff x y)). exact H. Qed.

Lemma Qc_inv_gap (x y : Qc) : (0 < x)%Qc -> (x <= y)%Qc -> (0 <= / x - / y)%Qc.
Proof.
  intros Hx Hxy.
  assert (Hy : (0 < y)%Qc) by exact (Qclt_le_trans _ _ _ Hx Hxy).
  replace (/ x - / y)%Qc with ((y - x) * (/ x * / y))%Qc
    by (field; split; apply Qc_pos_neq; assumption).
  apply Qc_mul_nonneg; [apply Qc_sub_nonneg; assumption|].
  apply Qc_mul_nonneg; apply Qclt_le_weak, Qc_inv_pos; assumption.
Qed.

(** X7.  In exact arithmetic both decomposed amounts are non-negative for a
    non-negative liquidity and bounds [0 < lo <= hi], provided that the
    current square-root price lies within the bounds whenever the current
    tick lies within the position's ticks. *)
Theorem decomposeLiquidity_nonnegative
    (currentTick tickLower tickUpper : Z) (L c lo hi : Qc) :
  (0 <= L)%Qc -> (0 < lo)%Qc -> (lo <= hi)%Qc ->
  (tickLower <= currentTick <= tickUpper -> (lo <= c)%Qc /\ (c <= hi)%Qc) ->
  (0 <= fst (decomposeLiquidity currentTick tickLower tickUpper L c lo hi))%Qc
  /\ (0 <= snd (decomposeLiquidity currentTick tickLower tickUpper L c lo hi))%Qc.
Proof.
  intros HL Hlo Hhi Hin. unfold decomposeLiquidity.
  destruct (currentTick <? tickLower) eqn:E1.
  - cbn [fst snd asub amul ainv azero Arith_Qc]. split; [|apply Qcle_refl].
    apply Qc_mul_nonneg; [assumption | apply Qc_inv_gap; assumption].
  - destruct (currentTick >? tickUpper) eqn:E2.
    + cbn [fst snd asub amul ainv azero Arith_Qc]. split; [apply Qcle_refl|].
      apply Qc_mul_nonneg; [assumption | apply Qc_sub_nonneg; assumption].
    + apply Z.ltb_ge in E1. rewrite Z.gtb_ltb in E2. apply Z.ltb_ge in E2.
      destruct (Hin ltac:(lia)) as [Hc1 Hc2].
      cbn [fst snd asub amul ainv azero Arith_Qc]. split.
      * apply Qc_mul_nonneg; [assumption|]. apply Qc_inv_gap; [|assumption].
        exact (Qclt_le_trans _ _ _ Hlo Hc1).
      * apply Qc_mul_nonneg; [assumption | apply Qc_sub_nonneg; assumption].
Qed.

Lemma decomposeLiquidity_nonnegative_witness :
  let L := Q2Qc 1000000 in
  let c := Q2Qc 1 in
  let lo := Q2Qc (9 # 10) in
  let hi := Q2Qc (11 # 10) in
  (0 <= fst (decomposeLiquidity 0 (-2) 2 L c lo hi))%Qc
  /\ (0 <= snd (decomposeLiquidity 0 (-2) 2 L c lo hi))%Qc.
Proof.
  intros L c lo hi.
  apply (decomposeLiquidity_nonnegative 0 (-2) 2 L c lo hi);
    [discriminate | reflexivity | discriminate | intros _; split; discriminate].
Defined.

Lemma Qc_min_scale (k x y : Qc) :
  (0 <= k)%Qc ->
  (if Qle_bool (k * x)%Qc (k * y)%Qc then (k * x)%Qc else (k * y)%Qc)
  = (k * (if Qle_bool x y then x else y))%Qc.
Proof.
  intros Hk.
  assert (Hmono : forall a b : Qc, (a <= b)%Qc -> (k * a <= k * b)%Qc).
  { intros a b Hab. rewrite (Qcmult_comm k a), (Qcmult_comm k b).
    apply Qcmult_le_compat_r; assumption. }
  destruct (Qle_bool x y) eqn:E1, (Qle_bool (k * x)%Qc (k * y)%Qc) eqn:E2; try reflexivity.
  - apply Qle_bool_iff in E1. apply Hmono in E1.
    apply Qle_bool_true in E1. congruence.
  - apply Qle_bool_iff in E2.
    assert (Hyx : (y <= x)%Qc).
    { destruct (Qclt_le_dec x y) as [H | H]; [|exact H].
      apply Qclt_le_weak, Qle_bool_true in H. congruence. }
    apply Qcle_antisym; [exact E2 | apply Hmono; exact Hyx].
Qed.

(** X8.  In exact arithmetic liquidity-from-amounts is homogeneous in the
    amounts: scaling both amounts by a factor [k >= 0] scales the liquidity
    by [k], in each of the three branches. *)
Theorem calculateV3Liquidity_homogeneous (k amountX amountY c lo hi : Qc) :
  (0 <= k)%Qc ->
  calculateV3Liquidity (k * amountX)%Qc (k * amountY)%Qc c lo hi
  = (k * calculateV3Liquidity amountX amountY c lo hi)%Qc.
Proof.
  intros Hk. unfold calculateV3Liquidity.
  cbn [aleb amin asub amul adiv Arith_Qc Ordered_Qc].
  destruct (Qle_bool c lo); [unfold Qcdiv; ring|].
  destruct (Qle_bool hi c); [unfold Qcdiv; ring|].
  replace (k * amountX * (hi * c) / (hi - c))%Qc
    with (k * (amountX * (hi * c) / (hi - c)))%Qc by (unfold Qcdiv; ring).
  replace (k * amountY / (c - lo))%Qc
    with (k * (amountY / (c - lo)))%Qc by (unfold Qcdiv; ring).
  apply Qc_min_scale. exact Hk.
Qed.

Lemma calculateV3Liquidity_homogeneous_witness :
  calculateV3Liquidity (Q2Qc 3 * Q2Qc 5)%Qc (Q2Qc 3 * Q2Qc 7)%Qc
    (Q2Qc 1) (Q2Qc (9 # 10)) (Q2Qc (11 # 10))
  = (Q2Qc 3 * calculateV3Liquidity (Q2Qc 5) (Q2Qc 7)
               (Q2Qc 1) (Q2Qc (9 # 10)) (Q2Qc (11 # 10)))%Qc.
Proof.
  apply (calculateV3Liquidity_homogeneous (Q2Qc 3)). discriminate.
Defined.

(** ** Signs of converted numbers *)

Module FloatSigns.

Lemma shr_fexp_nonneg (m e : Z) (l : location) :
  0 <= m -> 0 <= shr_m (fst (shr_fexp prec emax m e l)).
Proof.
  intros Hm. unfold shr_fexp, shr.
  destruct (fexp prec emax (Zdigits2 m + e) - e) as [|p|p]; cbn [fst];
    rewrite ?FloatFacts.shr_record_of_loc_m; try assumption.
  apply FloatFacts.iter_pos_shr_1. rewrite FloatFacts.shr_record_of_loc_m. assumption.
Qed.

Lemma binary_round_aux_nonneg (m e : Z) (l : location) :
  0 <= m -> specNonNegative (binary_round_aux prec emax false m e l) = true.
Proof.
  intros Hm. unfold binary_round_aux.
  pose proof (shr_fexp_nonneg m e l Hm) as H1.
  destruct (shr_fexp prec emax m e l) as [mrs' e']. cbn [fst] in H1.
  pose proof (FloatFacts.round_nearest_even_ge (shr_m mrs') (loc_of_shr_record mrs')) as Hr.
  pose proof (shr_fexp_nonneg (round_nearest_even (shr_m mrs') (loc_of_shr_record mrs'))
                e' loc_Exact ltac:(lia)) as H2.
  destruct (shr_fexp prec emax _ e' loc_Exact) as [mrs'' e'']. cbn [fst] in H2.
  destruct (shr_m mrs''); [reflexivity | | lia].
  destruct (e'' <=? emax - prec); reflexivity.
Qed.

Lemma binary_round_nonneg (m : positive) (e : Z) :
  specNonNegative (binary_round prec emax false m e) = true.
Proof.
  unfold binary_round.
  destruct (shl_align m e (fexp prec emax (Zpos (digits2_pos m) + e))) as [mz ez].
  apply binary_round_aux_nonneg. lia.
Qed.

Lemma binary_normalize_nonneg (n e : Z) :
  0 <= n -> specNonNegative (binary_normalize prec emax n e false) = true.
Proof.
  intros Hn. destruct n as [|q|q]; [reflexivity | apply binary_round_nonneg | lia].
Qed.

Lemma SFldexp_nonneg (x : spec_float) (e : Z) :
  specNonNegative x = true -> specNonNegative (SFldexp prec emax x e) = true.
Proof.
  destruct x as [[]|[]| |[] m e']; cbn [specNonNegative SFldexp]; intros H;
    try discriminate H; try reflexivity.
  apply binary_round_nonneg.
Qed.

Lemma SF2Prim_nonneg (x : spec_float) :
  specNonNegative x = true -> nonNegativeNumber (SF2Prim x) = true.
Proof.
  destruct x as [[]|[]| |[] m e]; cbn [specNonNegative]; intros H;
    try discriminate H; try reflexivity.
  unfold nonNegativeNumber, SF2Prim.
  rewrite FloatLemmas.Z_ldexp_spec. apply SFldexp_nonneg.
  rewrite of_uint63_spec. apply binary_normalize_nonneg.
  apply Uint63.to_Z_bounded.
Qed.

Lemma SFdiv_core_binary_nonneg (n d : Z) :
  0 <= n -> 0 < d ->
  0 <= fst (fst (SFdiv_core_binary prec emax n 0 d 0)).
Proof.
  intros Hn Hd. unfold SFdiv_core_binary.
  set (e' := Z.min _ _). set (s := 0 - 0 - e').
  set (m' := match s with Zpos _ => Z.shiftl n s | Z0 => n | Zneg _ => 0 end).
  assert (Hm' : 0 <= m').
  { unfold m'. destruct s; [assumption | apply Z.shiftl_nonneg; assumption | lia]. }
  assert (Hq : fst (Z.div_eucl m' d) = m' / d) by reflexivity.
  destruct (Z.div_eucl m' d) as [q r]. cbn [fst] in *. subst q.
  apply Z.div_pos; assumption.
Qed.

(** The number a non-negative decimal converts to is +0, positive or
    +Infinity. *)
Lemma ofDecimal_nonneg (c e : Z) :
  nonNegativeNumber (JsNumber.ofDecimal (Decimal.Fin false c e)) = true.
Proof.
  unfold JsNumber.ofDecimal. destruct (c <=? 0) eqn:Ec; [reflexivity|].
  apply Z.leb_gt in Ec. destruct (0 <=? e) eqn:Ee.
  - apply Z.leb_le in Ee. unfold JsNumber.ofZ. apply SF2Prim_nonneg.
    apply binary_normalize_nonneg. cbn [Decimal.signed].
    apply Z.mul_nonneg_nonneg; [lia | apply Z.pow_nonneg; lia].
  - apply Z.leb_gt in Ee. unfold JsNumber.ofRatio.
    pose proof (SFdiv_core_binary_nonneg c (10 ^ (- e)) ltac:(lia)
                  ltac:(apply Z.pow_pos_nonneg; lia)) as Hq.
    destruct (SFdiv_core_binary prec emax c 0 (10 ^ (- e)) 0) as [[q e'] l].
    cbn [fst] in Hq. apply SF2Prim_nonneg, binary_round_aux_nonneg. exact Hq.
Qed.

Lemma sqrt_nonneg (x : float) :
  nonNegativeNumber x = true -> nonNegativeNumber (sqrt x) = true.
Proof.
  unfold nonNegativeNumber. rewrite sqrt_spec.
  destruct (Prim2SF x) as [[]|[]| |[] m e]; cbn [specNonNegative]; intros H;
    try discriminate H; try reflexivity.
  unfold SF64sqrt, SFsqrt.
  destruct (SFsqrt_core_binary prec emax (Zpos m) e) as [[q e'] l] eqn:E.
  apply binary_round_aux_nonneg.
  unfold SFsqrt_core_binary in E.
  destruct (Z.sqrtrem _) as [q' r'] eqn:Es in E.
  injection E as <- _ _.
  match type of Es with Z.sqrtrem ?a = _ =>
    pose proof (Z.sqrtrem_sqrt a) as Hs; rewrite Es in Hs; cbn [fst] in Hs;
    rewrite Hs; apply Z.sqrt_nonneg
  end.
Qed.

Lemma nonNegativeNumber_not_NaN (x : float) :
  nonNegativeNumber x = true -> JsNumber.isNaN x = false.
Proof.
  unfold nonNegativeNumber, JsNumber.isNaN.
  destruct (Prim2SF x) as [[]|[]| |[] m e]; cbn; intros H; congruence.
Qed.

End FloatSigns.

(** X9.  Whatever the raw square-root price (of either sign and any size)
    and the token decimals, the pool price is computed as a finite decimal
    that is zero or positive, at the working precision, and the number
    returned for it is +0, positive or +Infinity: never NaN, never
    negative.  Its square root, the current square-root price of the display
    liquidity, is then a number as well. *)
Theorem getTokenPriceFromPool_nonnegative
    (address0 address1 : string) (rawSqrtPrice currentTick d0 d1 : Z) :
  exists actualPrice : Decimal.t,
    getTokenPriceFromPool
      {| token0 := Some address0; token1 := Some address1;
         slot0 := Some {| sqrtPriceX96 := rawSqrtPrice; tick := currentTick |};
         decimals0 := Some d0; decimals1 := Some d1 |}
    = Some (JsNumber.ofDecimal actualPrice, d0, d1)
    /\ nonNegativeDecimal actualPrice
    /\ Decimal.atPrecision actualPrice
    /\ nonNegativeNumber (JsNumber.ofDecimal actualPrice) = true
    /\ JsNumber.isNaN (sqrt (JsNumber.ofDecimal actualPrice)) = false.
Proof.
  eexists. split; [reflexivity|].
  cbn [slot0 sqrtPriceX96].
  set (sp := Decimal.div (Decimal.ofZ rawSqrtPrice) Decimal.Q96).
  assert (Hprice : nonNegativeDecimal (Decimal.mul sp sp)).
  { unfold sp, Decimal.ofZ.
    destruct (DecimalShape.normalise_shape (rawSqrtPrice <? 0) (Z.abs rawSqrtPrice) 0)
      as (c & e & -> & _).
    change Decimal.Q96 with (Decimal.Fin false 79228162514264337594 9).
    cbn [Decimal.div]. change (79228162514264337594 =? 0) with false. cbv iota.
    match goal with |- context [Decimal.finalise ?s ?a ?b] =>
      destruct (DecimalShape.finalise_shape s a b) as (c' & e' & -> & _) end.
    cbn [Decimal.mul]. rewrite xorb_nilpotent. apply DecimalShape.finalise_nonNegative. }
  assert (Hadj : nonNegativeDecimal (adjustForDecimals (Decimal.mul sp sp) d0 d1)).
  { rewrite adjustForDecimals_cases. unfold Decimal.tenPow.
    destruct (Decimal.mul sp sp) as [[] c e| |]; try contradiction.
    destruct (d1 <=? d0).
    - cbn [Decimal.mul]. apply DecimalShape.finalise_nonNegative.
    - cbn [Decimal.div]. change (1 =? 0) with false. cbv iota.
      apply DecimalShape.finalise_nonNegative. }
  split; [exact Hadj|].
  split; [apply adjustForDecimals_atPrecision|].
  destruct (adjustForDecimals (Decimal.mul sp sp) d0 d1) as [[] c e| |];
    try contradiction.
  split; [apply FloatSigns.ofDecimal_nonneg|].
  apply FloatSigns.nonNegativeNumber_not_NaN, FloatSigns.sqrt_nonneg,
    FloatSigns.ofDecimal_nonneg.
Qed.

Lemma calculateLpValue_blockNumber_witness :
  exists r,
    calculateLpValue Examples.sqrtPriceAtTick Examples.pow10 Examples.clientWindowed
      (Examples.nftCentered None) Examples.poolAtPar (Some 100) None None None = Some r
    /\ blockNumber r = 100.
Proof.
  eexists. split; [vm_compute; reflexivity|].
  refine (proj1 (calculateLpValue_blockNumber Examples.sqrtPriceAtTick Examples.pow10
            Examples.clientWindowed (Examples.nftCentered None) Examples.poolAtPar
            (Some 100) None None None _ _) 100 eq_refl _).
  - vm_compute; reflexivity.
  - discriminate.
Defined.

(** ** NaN in the arithmetic of numbers *)

Module NaNFacts.
Import JsNumber.

Ltac spec_cases x := destruct (Prim2SF x) as [[]|[]| |[] ? ?].

Lemma mul_l (x y : float) : isNaN x = true -> isNaN (x * y) = true.
Proof.
  unfold isNaN. rewrite mul_spec. unfold SF64mul.
  spec_cases x; intros H; try discriminate H. reflexivity.
Qed.

Lemma mul_r (x y : float) : isNaN y = true -> isNaN (x * y) = true.
Proof.
  unfold isNaN. rewrite mul_spec. unfold SF64mul.
  spec_cases y; intros H; try discriminate H. spec_cases x; reflexivity.
Qed.

Lemma div_l (x y : float) : isNaN x = true -> isNaN (x / y) = true.
Proof.
  unfold isNaN. rewrite div_spec. unfold SF64div.
  spec_cases x; intros H; try discriminate H. reflexivity.
Qed.

Lemma div_r (x y : float) : isNaN y = true -> isNaN (x / y) = true.
Proof.
  unfold isNaN. rewrite div_spec. unfold SF64div.
  spec_cases y; intros H; try discriminate H. spec_cases x; reflexivity.
Qed.

Lemma sub_l (x y : float) : isNaN x = true -> isNaN (x - y) = true.
Proof.
  unfold isNaN. rewrite FloatAxioms.sub_spec. unfold SF64sub.
  spec_cases x; intros H; try discriminate H. reflexivity.
Qed.

Lemma sub_r (x y : float) : isNaN y = true -> isNaN (x - y) = true.
Proof.
  unfold isNaN. rewrite FloatAxioms.sub_spec. unfold SF64sub.
  spec_cases y; intros H; try discriminate H. spec_cases x; reflexivity.
Qed.

Lemma add_l (x y : float) : isNaN x = true -> isNaN (x + y) = true.
Proof.
  unfold isNaN. rewrite add_spec. unfold SF64add.
  spec_cases x; intros H; try discriminate H. reflexivity.
Qed.

Lemma sqrt_NaN (x : float) : notAPrice x = true -> isNaN (sqrt x) = true.
Proof.
  unfold notAPrice, isNaN. rewrite FloatAxioms.ltb_spec, sqrt_spec.
  change (Prim2SF 0) with (S754_zero false). unfold SF64sqrt.
  spec_cases x; cbn [orb SFltb SFcompare SFsqrt]; intros H;
    try discriminate H; reflexivity.
Qed.

Lemma leb_l (x y : float) : isNaN x = true -> (x <=? y)%float = false.
Proof.
  unfold isNaN. rewrite FloatAxioms.leb_spec.
  spec_cases x; intros H; try discriminate H. reflexivity.
Qed.

Lemma leb_r (x y : float) : isNaN y = true -> (x <=? y)%float = false.
Proof.
  unfold isNaN. rewrite FloatAxioms.leb_spec.
  spec_cases y; intros H; try discriminate H. spec_cases x; reflexivity.
Qed.

Lemma is_nan_isNaN (x : float) : is_nan x = isNaN x.
Proof.
  unfold is_nan, isNaN. rewrite FloatAxioms.eqb_spec. unfold SFeqb.
  destruct (Prim2SF x) as [s|s| |s m e] eqn:E; try reflexivity.
  - destruct s; reflexivity.
  - rewrite SFcompare_refl by discriminate. reflexivity.
Qed.

Lemma min_l (x y : float) : isNaN x = true -> isNaN (min x y) = true.
Proof.
  intros H. unfold min. rewrite !is_nan_isNaN, H. reflexivity.
Qed.

Lemma min_r (x y : float) : isNaN y = true -> isNaN (min x y) = true.
Proof.
  intros H. unfold min. rewrite !is_nan_isNaN, H, orb_true_r. reflexivity.
Qed.

(** A NaN among the three square-root prices makes the liquidity NaN. *)
Lemma calculateV3Liquidity_NaN (amountX amountY c lo hi : float) :
  isNaN c || isNaN lo || isNaN hi = true ->
  isNaN (calculateV3Liquidity amountX amountY c lo hi) = true.
Proof.
  intros H. unfold calculateV3Liquidity.
  cbn [aleb amin asub amul adiv Arith_number Ordered_number].
  destruct (isNaN c) eqn:Ec.
  { rewrite (leb_l c lo Ec), (leb_r hi c Ec).
    apply min_r, div_r, sub_l, Ec. }
  destruct (isNaN lo) eqn:El.
  { rewrite (leb_r c lo El). destruct (hi <=? c)%float.
    - apply div_r, sub_r, El.
    - apply min_r, div_r, sub_r, El. }
  cbn [orb] in H.
  destruct (c <=? lo)%float.
  - apply div_r, sub_l, H.
  - rewrite (leb_l hi c H). apply min_l, div_r, sub_l, H.
Qed.

Lemma calculatePositionValue_NaN (liquidity price px py : float) :
  isNaN (liquidity / sqrt price) = true ->
  isNaN (calculatePositionValue liquidity price px py) = true.
Proof.
  intros H. unfold calculatePositionValue. apply add_l, mul_l, H.
Qed.

Lemma zero_mul_r (x y : float) : zeroOrNaN y = true -> zeroOrNaN (x * y) = true.
Proof.
  unfold zeroOrNaN. rewrite mul_spec. unfold SF64mul.
  spec_cases y; intros H; try discriminate H; spec_cases x; reflexivity.
Qed.

Lemma zero_div_l (x y : float) : zeroOrNaN x = true -> zeroOrNaN (x / y) = true.
Proof.
  unfold zeroOrNaN. rewrite div_spec. unfold SF64div.
  spec_cases x; intros H; try discriminate H; spec_cases y; reflexivity.
Qed.

Lemma zero_div_zero (x y : float) :
  zeroOrNaN x = true -> specIsZero (Prim2SF y) = true -> isNaN (x / y) = true.
Proof.
  unfold zeroOrNaN, isNaN. rewrite div_spec. unfold SF64div.
  spec_cases x; intros H; try discriminate H; spec_cases y; intros H';
    try discriminate H'; reflexivity.
Qed.

Lemma sqrt_zero (x : float) :
  specIsZero (Prim2SF x) = true -> specIsZero (Prim2SF (sqrt x)) = true.
Proof.
  rewrite sqrt_spec. unfold SF64sqrt.
  spec_cases x; intros H; try discriminate H; reflexivity.
Qed.

Lemma zero_leb_zero (x y : float) :
  specIsZero (Prim2SF x) = true -> specIsZero (Prim2SF y) = true ->
  (x <=? y)%float = true.
Proof.
  rewrite FloatAxioms.leb_spec.
  spec_cases x; intros H; try discriminate H; spec_cases y; intros H';
    try discriminate H'; reflexivity.
Qed.

Lemma zero_zeroOrNaN (x : float) : specIsZero (Prim2SF x) = true -> zeroOrNaN x = true.
Proof. unfold zeroOrNaN. spec_cases x; intros H; try discriminate H; reflexivity. Qed.

End NaNFacts.

(** A pool whose square-root price reads 0 has the pool price +0, whatever
    the token decimals. *)
Lemma getTokenPriceFromPool_zero (pool : PoolContract) (t d0 d1 : Z) (price : float) :
  slot0 pool = Some {| sqrtPriceX96 := 0; tick := t |} ->
  getTokenPriceFromPool pool = Some (price, d0, d1) ->
  price = PrimFloat.zero.
Proof.
  unfold getTokenPriceFromPool. intros Hs.
  destruct (token0 pool); [|discriminate].
  destruct (token1 pool); [|discriminate].
  destruct (decimals0 pool) as [a|]; [|discriminate].
  destruct (decimals1 pool) as [b|]; [|discriminate].
  rewrite Hs. cbn [sqrtPriceX96].
  change (Decimal.div (Decimal.ofZ 0) Decimal.Q96) with (Decimal.Fin false 0 0).
  change (Decimal.mul (Decimal.Fin false 0 0) (Decimal.Fin false 0 0))
    with (Decimal.Fin false 0 0).
  rewrite adjustForDecimals_cases. unfold Decimal.tenPow.
  intros E. injection E as <- _ _.
  destruct (b <=? a).
  - reflexivity.
  - cbn [Decimal.div]. change (1 =? 0) with false. cbv iota.
    reflexivity.
Qed.

(** X10.  The price window is used as configured, unchecked.  If one of its
    bounds is NaN or below zero, every valuation that returns has a NaN
    position value and a NaN total value: no error is raised. *)
Theorem calculateLpValue_window_not_a_price
    (sqrtPriceAtTick : Z -> Decimal.t) (pow10 : Z -> float) (self : V3LpValue)
    (nft : NftContract) (pool : PoolContract)
    (blockArg latestBlock : option Z) (poolXU poolYU : option PoolContract)
    (r : PositionValue) :
  notAPrice (priceLower self) || notAPrice (priceUpper self) = true ->
  calculateLpValue sqrtPriceAtTick pow10 self nft pool blockArg latestBlock poolXU poolYU = Some r ->
  JsNumber.isNaN (positionValue r) = true /\ JsNumber.isNaN (totalValue r) = true.
Proof.
  intros Hw. unfold calculateLpValue. intros Hr.
  destruct (getPositionAmounts sqrtPriceAtTick nft pool) as [[[[aX aY] fX] fY]|];
    [|discriminate Hr].
  destruct (getTokenPriceFromPool pool) as [[[price d0] d1]|]; [|discriminate Hr].
  destruct (match poolXU with Some p => _ | None => _ end) as [px|]; [|discriminate Hr].
  destruct (match poolYU with Some p => _ | None => _ end) as [py|]; [|discriminate Hr].
  destruct (match blockArg with Some b => _ | None => _ end) as [blk|];
    [|discriminate Hr].
  injection Hr as <-. cbn [positionValue totalValue].
  assert (HL : JsNumber.isNaN (displayLiquidity pow10 self aX aY price d0 d1) = true).
  { unfold displayLiquidity. apply NaNFacts.calculateV3Liquidity_NaN.
    apply orb_true_iff in Hw. destruct Hw as [Hw | Hw];
      rewrite (NaNFacts.sqrt_NaN _ Hw), ?orb_true_r; reflexivity. }
  assert (HP : JsNumber.isNaN
                 (calculatePositionValue (displayLiquidity pow10 self aX aY price d0 d1)
                    price px py) = true).
  { apply NaNFacts.calculatePositionValue_NaN, NaNFacts.div_l, HL. }
  split; [exact HP | apply NaNFacts.add_l, HP].
Qed.

Lemma calculateLpValue_window_not_a_price_witness :
  exists r,
    calculateLpValue Examples.sqrtPriceAtTick Examples.pow10
      {| rpcUrl := ""; apiKey := ""; priceLower := (-1)%float; priceUpper := 4%float |}
      (Examples.nftCentered None) Examples.poolAtPar (Some 100) None None None = Some r
    /\ JsNumber.isNaN (positionValue r) = true /\ JsNumber.isNaN (totalValue r) = true.
Proof.
  eexists. split; [vm_compute; reflexivity|].
  refine (calculateLpValue_window_not_a_price Examples.sqrtPriceAtTick Examples.pow10
            {| rpcUrl := ""; apiKey := ""; priceLower := (-1)%float; priceUpper := 4%float |}
            (Examples.nftCentered None) Examples.poolAtPar
            (Some 100) None None None _ _ _).
  - vm_compute; reflexivity.
  - vm_compute; reflexivity.
Defined.

(** X11.  A pool that is not initialised reads a square-root price of 0.
    With a lower bound of zero, which is what the constructor sets, every
    valuation that returns reports the pool price +0 and a NaN position value
    and total value, for any position, fees, upper bound and dollar
    prices. *)
Theorem calculateLpValue_uninitialised_pool
    (sqrtPriceAtTick : Z -> Decimal.t) (pow10 : Z -> float) (self : V3LpValue)
    (nft : NftContract) (pool : PoolContract) (t : Z)
    (blockArg latestBlock : option Z) (poolXU poolYU : option PoolContract)
    (r : PositionValue) :
  slot0 pool = Some {| sqrtPriceX96 := 0; tick := t |} ->
  (priceLower self =? 0)%float = true ->
  calculateLpValue sqrtPriceAtTick pow10 self nft pool blockArg latestBlock poolXU poolYU = Some r ->
  tokenPrice r = PrimFloat.zero
  /\ JsNumber.isNaN (positionValue r) = true
  /\ JsNumber.isNaN (totalValue r) = true.
Proof.
  intros Hs Hlo. rewrite eqb_zero in Hlo. unfold calculateLpValue. intros Hr.
  destruct (getPositionAmounts sqrtPriceAtTick nft pool) as [[[[aX aY] fX] fY]|];
    [|discriminate Hr].
  destruct (getTokenPriceFromPool pool) as [[[price d0] d1]|] eqn:Ep; [|discriminate Hr].
  apply (getTokenPriceFromPool_zero pool t d0 d1 price Hs) in Ep. subst price.
  destruct (match poolXU with Some p => _ | None => _ end) as [px|]; [|discriminate Hr].
  destruct (match poolYU with Some p => _ | None => _ end) as [py|]; [|discriminate Hr].
  destruct (match blockArg with Some b => _ | None => _ end) as [blk|];
    [|discriminate Hr].
  injection Hr as <-. cbn [tokenPrice positionValue totalValue].
  split; [reflexivity|].
  assert (Hc : JsNumber.specIsZero (Prim2SF (sqrt PrimFloat.zero)) = true) by reflexivity.
  pose proof (NaNFacts.sqrt_zero _ Hlo) as Hl.
  assert (HL : zeroOrNaN (displayLiquidity pow10 self aX aY PrimFloat.zero d0 d1) = true).
  { unfold displayLiquidity, calculateV3Liquidity.
    cbn [aleb amin asub amul adiv Arith_number Ordered_number].
    rewrite (NaNFacts.zero_leb_zero _ _ Hc Hl).
    apply NaNFacts.zero_div_l, NaNFacts.zero_mul_r, NaNFacts.zero_mul_r,
      NaNFacts.zero_zeroOrNaN, Hl. }
  assert (HP : JsNumber.isNaN
                 (calculatePositionValue
                    (displayLiquidity pow10 self aX aY PrimFloat.zero d0 d1)
                    PrimFloat.zero px py) = true).
  { apply NaNFacts.calculatePositionValue_NaN, NaNFacts.zero_div_zero; assumption. }
  split; [exact HP | apply NaNFacts.add_l, HP].
Qed.

Lemma calculateLpValue_uninitialised_pool_witness :
  exists r,
    calculateLpValue Examples.sqrtPriceAtTick Examples.pow10 Examples.clientDefault
      (Examples.nftCentered None)
      Examples.poolUninitialised (Some 100) None None None = Some r
    /\ tokenPrice r = PrimFloat.zero
    /\ JsNumber.isNaN (positionValue r) = true
    /\ JsNumber.isNaN (totalValue r) = true.
Proof.
  eexists. split; [vm_compute; reflexivity|].
  refine (calculateLpValue_uninitialised_pool Examples.sqrtPriceAtTick Examples.pow10
            Examples.clientDefault (Examples.nftCentered None)
            Examples.poolUninitialised 0 (Some 100) None None None _ _ _ _).
  - reflexivity.
  - vm_compute; reflexivity.
  - vm_compute; reflexivity.
Defined.

(** ** Order in exact arithmetic *)

Lemma Qle_bool_false_lt (x y : Qc) : Qle_bool x y = false -> (y < x)%Qc.
Proof.
  intros E. destruct (Qclt_le_dec y x) as [H | H]; [exact H|].
  apply Qle_bool_true in H. congruence.
Qed.

Lemma Qc_min_mono (a a' b b' : Qc) :
  (a <= a')%Qc -> (b <= b')%Qc ->
  ((if Qle_bool a b then a else b) <= (if Qle_bool a' b' then a' else b'))%Qc.
Proof.
  intros Ha Hb.
  destruct (Qle_bool a b) eqn:E, (Qle_bool a' b') eqn:E'; try assumption.
  - apply Qle_bool_iff in E. exact (Qcle_trans _ _ _ E Hb).
  - apply Qle_bool_false_lt, Qclt_le_weak in E. exact (Qcle_trans _ _ _ E Ha).
Qed.

Lemma Qc_div_mono (a a' k d : Qc) :
  (0 <= k)%Qc -> (0 < d)%Qc -> (a <= a')%Qc -> (a * k / d <= a' * k / d)%Qc.
Proof.
  intros Hk Hd Ha.
  replace (a * k / d)%Qc with (a * (k * / d))%Qc by (unfold Qcdiv; ring).
  replace (a' * k / d)%Qc with (a' * (k * / d))%Qc by (unfold Qcdiv; ring).
  apply Qcmult_le_compat_r; [exact Ha|].
  apply Qc_mul_nonneg; [exact Hk | apply Qclt_le_weak, Qc_inv_pos; exact Hd].
Qed.

Lemma Qc_sub_pos (x y : Qc) : (x < y)%Qc -> (0 < y - x)%Qc.
Proof. intros H. apply (proj1 (Qclt_minus_iff x y)). exact H. Qed.

(** X12.  In exact arithmetic liquidity-from-amounts is monotone in the
    amounts: for bounds [0 <= lo < hi], larger amounts of both tokens never
    give a smaller liquidity, wherever the current price lies. *)
Theorem calculateV3Liquidity_monotone (amountX amountX' amountY amountY' c lo hi : Qc) :
  (0 <= lo)%Qc -> (lo < hi)%Qc ->
  (amountX <= amountX')%Qc -> (amountY <= amountY')%Qc ->
  (calculateV3Liquidity amountX amountY c lo hi
   <= calculateV3Liquidity amountX' amountY' c lo hi)%Qc.
Proof.
  intros Hlo Hhi HX HY. unfold calculateV3Liquidity.
  cbn [aleb amin asub amul adiv Arith_Qc Ordered_Qc].
  assert (Hhi0 : (0 <= hi)%Qc) by exact (Qcle_trans _ _ _ Hlo (Qclt_le_weak _ _ Hhi)).
  assert (Hone : forall a d : Qc, (a / d)%Qc = (a * 1 / d)%Qc)
    by (intros a d; unfold Qcdiv; ring).
  destruct (Qle_bool c lo) eqn:E1.
  - apply Qc_div_mono;
      [apply Qc_mul_nonneg; assumption | apply Qc_sub_pos; assumption | assumption].
  - apply Qle_bool_false_lt in E1.
    destruct (Qle_bool hi c) eqn:E2.
    + rewrite (Hone amountY), (Hone amountY').
      apply Qc_div_mono; [discriminate | apply Qc_sub_pos; assumption | assumption].
    + apply Qle_bool_false_lt in E2. apply Qc_min_mono.
      * apply Qc_div_mono; [|apply Qc_sub_pos; assumption | assumption].
        apply Qc_mul_nonneg; [assumption|].
        exact (Qcle_trans _ _ _ Hlo (Qclt_le_weak _ _ E1)).
      * rewrite (Hone amountY), (Hone amountY').
        apply Qc_div_mono; [discriminate | apply Qc_sub_pos; assumption | assumption].
Qed.

Lemma calculateV3Liquidity_monotone_witness :
  (calculateV3Liquidity (Q2Qc 5) (Q2Qc 7) (Q2Qc 1) (Q2Qc (9 # 10)) (Q2Qc (11 # 10))
   <= calculateV3Liquidity (Q2Qc 6) (Q2Qc 7) (Q2Qc 1) (Q2Qc (9 # 10)) (Q2Qc (11 # 10)))%Qc.
Proof.
  apply (calculateV3Liquidity_monotone (Q2Qc 5) (Q2Qc 6) (Q2Qc 7) (Q2Qc 7));
    discriminate || reflexivity.
Defined.
